(** * WebP converter: a shallow embedding of [index.js]

    The server of the repository has three stateful routes,
    [POST /convert], [GET /download/:session/:filename] and
    [GET /download-zip/:session], and one helper with an algorithm in it,
    [optimizeWebP].  They are embedded here over an explicit world (a
    file system, a trace of the observable actions and the two arrays of
    the response) threaded through a small state-and-exception monad, so
    that a JavaScript [throw], an [await] of a rejected promise and a
    [try]/[catch] read as in the source.

    Paths are strings, as in the source: the session identifier of the
    request and the names of the files are joined unchecked into them.
    The file system is a tree of directories and regular files, a finite
    map from locations (the names from the root down) to nodes; a path
    names the location it resolves to, lexically, against the working
    directory of the process (Linux; no symbolic or hard links).  Sizes
    are the only content of a file.

    What is outside the repository is a parameter of the model, gathered
    in the record [Env]: Node's [path.join], [path.basename] and
    [path.extname], [__dirname] and the working directory, the clock, the
    codec behind [sharp] and the text of its errors, the [archiver]
    package, what [res.download] does with a regular file, and the
    operating system's right to refuse a system call (EPERM, EBUSY,
    EACCES, ...).  An exception that leaves a route handler, or is thrown
    in a callback after the handler has returned, is a [Throw] of the
    route.  Information-level [console.log] lines are not modelled;
    [console.warn] and [console.error] lines are recorded in the trace. *)

From stdpp Require Import base strings gmap list pretty.
From Equations Require Import Equations.
From Stdlib Require Import ZArith Lia.

Open Scope Z_scope.

(** ** Errors and results *)

(** A JavaScript [Error]: Node's system errors carry a [code]. *)
Record Error := mkError { code : option string; message : string }.

Inductive Result (A : Type) :=
| Ok (a : A)
| Throw (e : Error).
Arguments Ok {A} a.
Arguments Throw {A} e.

(** The system errors that the state of the disk decides. *)
Inductive Errno := ENOENT | ENOTDIR | EISDIR | EEXIST.

Definition errno_code (e : Errno) : string :=
  match e with
  | ENOENT => "ENOENT"
  | ENOTDIR => "ENOTDIR"
  | EISDIR => "EISDIR"
  | EEXIST => "EEXIST"
  end.

Definition errno_text (e : Errno) : string :=
  match e with
  | ENOENT => "no such file or directory"
  | ENOTDIR => "not a directory"
  | EISDIR => "illegal operation on a directory"
  | EEXIST => "file already exists"
  end.

(** Node's message for a failed system call names the call and the path
    as it was passed: [ENOENT: no such file or directory, stat 'a/b']. *)
Definition system_error (e : Errno) (syscall path : string) : Error :=
  mkError (Some (errno_code e))
    (errno_code e +:+ ": " +:+ errno_text e +:+ ", " +:+ syscall
     +:+ " '" +:+ path +:+ "'").

(** ** Paths and locations *)

Definition Location := list string.

Definition slash : Ascii.ascii := Ascii.ascii_of_nat 47.

(** The names between the separators of a path, empty ones included. *)
Fixpoint split_path (s : string) : list string :=
  match s with
  | EmptyString => [""]
  | String c s' =>
      if Ascii.eqb c slash then "" :: split_path s'
      else
        match split_path s' with
        | name :: names => String c name :: names
        | [] => [String c ""]
        end
  end.

Definition is_absolute (s : string) : bool :=
  match s with
  | String c _ => Ascii.eqb c slash
  | EmptyString => false
  end.

Fixpoint ends_with_slash (s : string) : bool :=
  match s with
  | EmptyString => false
  | String c EmptyString => Ascii.eqb c slash
  | String _ s' => ends_with_slash s'
  end.

(** One name further from [here]. *)
Definition step (here : Location) (name : string) : Location :=
  if String.eqb name "" || String.eqb name "." then here
  else if String.eqb name ".." then removelast here
  else here ++ [name].

(** The location that the path [s] names for a process that works in
    [cwd]. *)
Definition locate (cwd s : string) : Location :=
  foldl step [] ((if is_absolute s then [] else split_path cwd) ++ split_path s).

Definition parent (p : Location) : Location := removelast p.

(** The locations on the way from [here] down the names, [here] left
    out. *)
Fixpoint dirs_below (here : Location) (names : list string) : list Location :=
  match names with
  | [] => []
  | name :: names' => (here ++ [name]) :: dirs_below (here ++ [name]) names'
  end.

(** From the root down to [p], the root left out; and the locations
    above [p]. *)
Definition below (p : Location) : list Location := dirs_below [] p.

Definition ancestors (p : Location) : list Location := below (parent p).

(** ** The file system *)

Inductive Node :=
| File (size : Z)
| Dir.

Abbreviation FileSystem := (gmap Location Node).

(** The root is always there. *)
Definition node_at (p : Location) (fs : FileSystem) : option Node :=
  match p with
  | [] => Some Dir
  | _ => fs !! p
  end.

Definition held_by_file (fs : FileSystem) (p : Location) : bool :=
  match node_at p fs with
  | Some (File _) => true
  | _ => false
  end.

(** Why nothing is found at [p]: a regular file is in the way, or not. *)
Definition missing (p : Location) (fs : FileSystem) : Errno :=
  if existsb (held_by_file fs) (ancestors p) then ENOTDIR else ENOENT.

(** The directories down to [p], made where they are not there. *)
Definition make_dirs (p : Location) (fs : FileSystem) : FileSystem :=
  foldr (fun q fs => <[q := Dir]> fs) fs (below p).

(** The name of [q] when [q] lies directly in [dir]. *)
Definition entry_of (dir q : Location) : option string :=
  match last q with
  | Some name => if decide (q = dir ++ [name]) then Some name else None
  | None => None
  end.

Definition entries (dir : Location) (fs : FileSystem) : list string :=
  omap (fun e => entry_of dir e.1) (map_to_list fs).

(** ** Events, the world, the environment *)

Inductive Syscall :=
| SysStat (path : string)
| SysAccess (path : string)
| SysUnlink (path : string)
| SysReaddir (path : string)
| SysMkdir (path : string)
| SysOpen (path : string).

Inductive Event :=
| EvEncode (input : string) (quality : Z) (output : string)
| EvUnlink (path : string) (ok : bool)
| EvWarn (line : string)
| EvError (line : string).

(** One element of the [fileSizes] array of the response.  The keys
    [skipped], [error] and [errorDetail] are absent ([None]) from the
    object literals that do not write them. *)
Record FileSize := mkFileSize {
  originalName : string;
  originalSize : Z;
  convertedSize : Z;
  skipped : option bool;
  error : option bool;
  errorDetail : option string
}.

(** The world: the disk, the trace of what was done, and the two arrays
    that [POST /convert] allocates and fills by [push]. *)
Record World := mkWorld {
  files : FileSystem;
  trace : list Event;
  fileSizes : list FileSize;
  downloadUrls : list string
}.

Definition with_files (fs : FileSystem) (w : World) : World :=
  mkWorld fs (trace w) (fileSizes w) (downloadUrls w).

Definition record (e : Event) (w : World) : World :=
  mkWorld (files w) (e :: trace w) (fileSizes w) (downloadUrls w).

(** How [res.download] ends: the file went out, or the callback gets an
    error, before or after the headers of the response were sent. *)
Inductive Delivery :=
| Sent
| NotSent (err : Error) (headersSent : bool).

Record Env := mkEnv {
  __dirname : string;
  cwd : string;
  path_join : list string -> string;
  path_extname : string -> string;
  path_basename : string -> string -> string;
  Date_now : Z;
  codec : string -> Z -> Result Z;
  sharp_no_input : string -> Error;
  sharp_no_output : string -> Error;
  archiver : string -> Result Z;
  delivery : string -> Delivery;
  refuse : Syscall -> option Error;
  dir_size : Z
}.

Definition resolve (env : Env) (s : string) : Location := locate (cwd env) s.

(** What the operating system finds under a path.  The empty path names
    nothing; a path that ends in a separator names directories only. *)
Inductive Found :=
| IsFile (size : Z)
| IsDir
| Absent (e : Errno).

Definition find (env : Env) (s : string) (fs : FileSystem) : Found :=
  if String.eqb s "" then Absent ENOENT
  else
    match node_at (resolve env s) fs with
    | Some (File size) => if ends_with_slash s then Absent ENOTDIR else IsFile size
    | Some Dir => IsDir
    | None => Absent (missing (resolve env s) fs)
    end.

(** The size of the regular file that a path names. *)
Definition lookup_file (env : Env) (s : string) (fs : FileSystem) : option Z :=
  match find env s fs with
  | IsFile size => Some size
  | _ => None
  end.

(** Opening a path for writing makes the file or truncates it; the
    directory it lies in must be there. *)
Definition write_file (env : Env) (s : string) (size : Z) (fs : FileSystem)
  : Errno + FileSystem :=
  if String.eqb s "" then inl ENOENT
  else
    match node_at (resolve env s) fs with
    | Some Dir => inl EISDIR
    | found =>
        if ends_with_slash s
        then inl (if found is Some _ then ENOTDIR else EISDIR)
        else
          match node_at (parent (resolve env s)) fs with
          | Some Dir => inr (<[resolve env s := File size]> fs)
          | Some (File _) => inl ENOTDIR
          | None => inl (missing (resolve env s) fs)
          end
    end.

Definition remove_file (env : Env) (s : string) (fs : FileSystem) : FileSystem :=
  delete (resolve env s) fs.

(** ** The monad: world passing with exceptions *)

Definition M (A : Type) : Type := World -> Result A * World.

Definition ret {A} (a : A) : M A := fun w => (Ok a, w).

Definition throw {A} (e : Error) : M A := fun w => (Throw e, w).

Definition bind {A B} (m : M A) (k : A -> M B) : M B :=
  fun w =>
    match m w with
    | (Ok a, w1) => k a w1
    | (Throw e, w1) => (Throw e, w1)
    end.

(** [try { m } catch (err) { h err }]: the world changes made before the
    throw stay. *)
Definition try_catch {A} (m : M A) (h : Error -> M A) : M A :=
  fun w =>
    match m w with
    | (Ok a, w1) => (Ok a, w1)
    | (Throw e, w1) => h e w1
    end.

Notation "'let*' x ':=' m 'in' k" := (bind m (fun x => k))
  (at level 10, x pattern, m at level 100, k at level 200).
Notation "m ';;' k" := (bind m (fun _ => k))
  (at level 100, k at level 200, right associativity).

Definition emit (e : Event) : M unit :=
  fun w => (Ok tt, record e w).

Definition console_warn (line : string) : M unit := emit (EvWarn line).
Definition console_error (line : string) : M unit := emit (EvError line).

Section Server.

Variable env : Env.

(** ** [fs.promises] *)

Definition stat (path : string) : M Z :=
  fun w =>
    match refuse env (SysStat path) with
    | Some e => (Throw e, w)
    | None =>
        match find env path (files w) with
        | IsFile size => (Ok size, w)
        | IsDir => (Ok (dir_size env), w)
        | Absent e => (Throw (system_error e "stat" path), w)
        end
    end.

(** [access(path)] with the default mode asks whether the path can be
    reached. *)
Definition access (path : string) : M unit :=
  fun w =>
    match refuse env (SysAccess path) with
    | Some e => (Throw e, w)
    | None =>
        match find env path (files w) with
        | Absent e => (Throw (system_error e "access" path), w)
        | _ => (Ok tt, w)
        end
    end.

Definition unlink (path : string) : M unit :=
  fun w =>
    match refuse env (SysUnlink path) with
    | Some e => (Throw e, record (EvUnlink path false) w)
    | None =>
        match find env path (files w) with
        | IsFile _ =>
            (Ok tt,
             record (EvUnlink path true)
               (with_files (remove_file env path (files w)) w))
        | IsDir =>
            (Throw (system_error EISDIR "unlink" path),
             record (EvUnlink path false) w)
        | Absent e =>
            (Throw (system_error e "unlink" path),
             record (EvUnlink path false) w)
        end
    end.

Definition readdir (path : string) : M (list string) :=
  fun w =>
    match refuse env (SysReaddir path) with
    | Some e => (Throw e, w)
    | None =>
        match find env path (files w) with
        | IsDir => (Ok (entries (resolve env path) (files w)), w)
        | IsFile _ => (Throw (system_error ENOTDIR "scandir" path), w)
        | Absent e => (Throw (system_error e "scandir" path), w)
        end
    end.

(** [mkdir(dir, { recursive: true })] makes the directories that are
    missing on the way and succeeds on a directory that is there; it
    fails on a regular file, with EEXIST at the end of the path.  The
    refusal of the operating system is that of the call as it is made,
    before any directory: a refused call has made nothing. *)
Definition mkdir_recursive (dir : string) : M unit :=
  fun w =>
    match refuse env (SysMkdir dir) with
    | Some e => (Throw e, w)
    | None =>
        if String.eqb dir "" then (Throw (system_error ENOENT "mkdir" dir), w)
        else if existsb (held_by_file (files w)) (ancestors (resolve env dir))
        then (Throw (system_error ENOTDIR "mkdir" dir), w)
        else
          match node_at (resolve env dir) (files w) with
          | Some (File _) =>
              (Throw (system_error
                        (if ends_with_slash dir then ENOTDIR else EEXIST)
                        "mkdir" dir), w)
          | _ => (Ok tt, with_files (make_dirs (resolve env dir) (files w)) w)
          end
    end.

(** [ensureDir], lines 31-38. *)
Definition ensureDir (dir : string) : M unit :=
  try_catch (mkdir_recursive dir)
    (fun err =>
       if decide (code err = Some "EEXIST") then ret tt else throw err).

(** ** [sharp(inputPath).webp({ quality, ... }).toFile(outputPath)]

    [toFile] refuses an output that resolves to the input.  The call
    reads the input, asks the codec for the encoded bytes and writes them
    over the output.  A fault leaves the output as it was. *)
Definition same_file : Error :=
  mkError None "Cannot use same file for input and output".

Definition sharp_webp_toFile (inputPath : string) (quality : Z)
    (outputPath : string) : M unit :=
  fun w =>
    let w1 := record (EvEncode inputPath quality outputPath) w in
    if decide (resolve env inputPath = resolve env outputPath)
    then (Throw same_file, w1)
    else
      match find env inputPath (files w) with
      | IsFile _ =>
          match codec env inputPath quality with
          | Throw e => (Throw e, w1)
          | Ok size =>
              match write_file env outputPath size (files w) with
              | inr fs => (Ok tt, with_files fs w1)
              | inl _ => (Throw (sharp_no_output env outputPath), w1)
              end
          end
      | _ => (Throw (sharp_no_input env inputPath), w1)
      end.

(** ** [optimizeWebP], lines 108-160 *)

Definition maxAttempts : Z := 3.

Definition too_small : Error := mkError None "Converted file size too small".

(** How one pass through the body of the [do ... while] ends: in the
    first branch of the [if] (the output was unlinked and the quality and
    the counter are stepped), or at the [break]. *)
Inductive Pass :=
| Retry (size : Z)
| Break (size : Z).

(** Lines 115-139, one pass of the loop body. *)
Definition attempt (inputPath outputPath : string) (originalSize : Z)
    (quality attempts : Z) : M Pass :=
  sharp_webp_toFile inputPath quality outputPath ;;
  let* convertedSize := stat outputPath in
  if (convertedSize >=? originalSize) && (quality >? 10)
     && (attempts <? maxAttempts)
  then
    unlink outputPath ;;
    ret (Retry convertedSize)
  else if convertedSize <? 512 then
    throw too_small
  else
    ret (Break convertedSize).

(** Lines 114-140: the [do ... while (attempts < maxAttempts)] loop; it
    returns [convertedSize] and [attempts] as the loop leaves them. *)
Equations? search (inputPath outputPath : string) (originalSize : Z)
    (quality attempts : Z) (w : World) : Result (Z * Z) * World
    by wf (Z.to_nat (maxAttempts - attempts)) lt :=
  search inputPath outputPath originalSize quality attempts w
    with attempt inputPath outputPath originalSize quality attempts w := {
    | (Throw e, w1) => (Throw e, w1);
    | (Ok (Break size), w1) => (Ok (size, attempts), w1);
    | (Ok (Retry size), w1)
        with Z_lt_dec (attempts + 1) maxAttempts := {
        | left _ =>
            search inputPath outputPath originalSize
              (quality - 20) (attempts + 1) w1;
        | right _ => (Ok (size, attempts + 1), w1) } }.
Proof. unfold maxAttempts in *. lia. Qed.

(** Lines 142-157, the final fallback. *)
Definition fallback (inputPath outputPath : string) : M Z :=
  sharp_webp_toFile inputPath 20 outputPath ;;
  stat outputPath.

Definition optimizeWebP (inputPath outputPath : string) (originalSize : Z)
    (isWebP : bool) : M Z :=
  let quality := if isWebP then 50 else 70 in
  let attempts := 0 in
  let* (convertedSize, _) :=
    search inputPath outputPath originalSize quality attempts in
  if convertedSize >=? originalSize then
    fallback inputPath outputPath
  else
    ret convertedSize.

End Server.

(** ** [POST /convert], lines 163-222 *)

(** A file as multer hands it over: [path] is where the upload was
    stored, [uploads/] and a name that multer draws, and [size] is the
    size declared by the upload. *)
Module File.
Record t := mk {
  originalname : string;
  path : string;
  size : Z;
  mimetype : string
}.
End File.

Record Request := mkRequest {
  x_session_id : option string;
  req_files : option (list File.t)
}.

(** What a route answers: [res.status(status).json({ error })], the
    [200] of [POST /convert] with its three keys, or the file at [path]
    sent by [res.download(path, filename)]; [filename] is the name as
    the route passes it on. *)
Inductive Response :=
| RespError (status : Z) (error : string)
| RespConvert (downloadUrls : list string) (zipDownloadUrl : string)
    (fileSizes : list FileSize)
| RespDownload (path : string) (filename : string).

(** JavaScript truthiness of an optional boolean key. *)
Definition truthy (b : option bool) : bool := default false b.

Inductive Status := Converted | Skipped | Failed.

Definition status_of (f : FileSize) : Status :=
  if truthy (error f) then Failed
  else if truthy (skipped f) then Skipped
  else Converted.

Definition push_fileSizes (f : FileSize) : M unit :=
  fun w =>
    (Ok tt, mkWorld (files w) (trace w) (fileSizes w ++ [f]) (downloadUrls w)).

Definition push_downloadUrls (url : string) : M unit :=
  fun w =>
    (Ok tt, mkWorld (files w) (trace w) (fileSizes w) (downloadUrls w ++ [url])).

(** Lines 175-176: [const fileSizes = []; const downloadUrls = [];]. *)
Definition fresh_arrays (w : World) : World :=
  mkWorld (files w) (trace w) [] [].

Definition new_arrays : M unit := fun w => (Ok tt, fresh_arrays w).

(** [promise.catch(h)]: the rejection is handled, nothing is thrown. *)
Definition promise_catch (m : M unit) (h : Error -> M unit) : M unit :=
  try_catch m h.

Fixpoint for_of {A} (l : list A) (body : A -> M unit) : M unit :=
  match l with
  | [] => ret tt
  | x :: l' => body x ;; for_of l' body
  end.

(** [res.status(...).json(...)]: setting a header throws once the
    headers of the response have been sent. *)
Definition headers_sent : Error :=
  mkError (Some "ERR_HTTP_HEADERS_SENT")
    "Cannot set headers after they are sent to the client".

Definition res_json (headersSent : bool) (response : Response) : M Response :=
  if headersSent then throw headers_sent else ret response.

(** The state of the archive route when its [try] block has been left:
    it has answered, or it has handed the answer to the callback of
    [res.download], or an error event that nothing listens to is on its
    way. *)
Inductive Started :=
| Answered (response : Response)
| Handed
| Unhandled (err : Error).

Section Convert.

Variable env : Env.

(** Line 179. *)
Definition outputFilename_of (file : File.t) : string :=
  path_basename env (File.originalname file)
    (path_extname env (File.originalname file)) +:+ ".webp".

(** Line 172. *)
Definition outputDir_of (sessionId : string) : string :=
  path_join env [__dirname env; "public"; sessionId].

(** Line 180. *)
Definition outputPath_of (sessionId : string) (file : File.t) : string :=
  path_join env [outputDir_of sessionId; outputFilename_of file].

(** Lines 184-199, the [try] block of the loop body. *)
Definition convert_try (sessionId : string) (file : File.t) : M unit :=
  let outputFilename := outputFilename_of file in
  let outputPath := path_join env [outputDir_of sessionId; outputFilename] in
  let* originalSize := stat env (File.path file) in
  let isWebP := bool_decide (File.mimetype file = "image/webp") in
  let* convertedSize :=
    optimizeWebP env (File.path file) outputPath originalSize isWebP in
  (if convertedSize >=? originalSize then
     unlink env outputPath ;;
     push_fileSizes
       (mkFileSize (File.originalname file) originalSize originalSize
          (Some true) None None) ;;
     push_downloadUrls ""
   else
     push_fileSizes
       (mkFileSize (File.originalname file) originalSize convertedSize
          None None None) ;;
     push_downloadUrls
       ("/download/" +:+ sessionId +:+ "/" +:+ outputFilename)) ;;
  unlink env (File.path file).

(** Lines 201-210, the [catch] block of the loop body. *)
Definition convert_catch (file : File.t) (err : Error) : M unit :=
  console_error
    ("Error processing " +:+ File.originalname file +:+ ": "
     +:+ message err) ;;
  push_fileSizes
    (mkFileSize (File.originalname file) (File.size file)
       (File.size file) None (Some true) (Some (message err))) ;;
  push_downloadUrls "" ;;
  promise_catch (unlink env (File.path file))
    (fun err => console_error ("Cleanup failed: " +:+ message err)).

(** Lines 179-211, the body of the [for] loop. *)
Definition convert_file (sessionId : string) (file : File.t) : M unit :=
  try_catch (convert_try sessionId file) (convert_catch file).

(** Line 171. *)
Definition sessionId_of (req : Request) : string :=
  match x_session_id req with
  | Some s => if decide (s = "") then "session_" +:+ pretty (Date_now env) else s
  | None => "session_" +:+ pretty (Date_now env)
  end.

(** Line 214. *)
Definition zipDownloadUrl_of (sessionId : string) (l : list FileSize)
  : string :=
  if negb (length l =? 0)%nat
     && negb (forallb (fun f => truthy (error f) || truthy (skipped f)) l)
  then "/download-zip/" +:+ sessionId
  else "".

(** Lines 214-217. *)
Definition respond (sessionId : string) : M Response :=
  fun w =>
    (Ok (RespConvert (downloadUrls w)
           (zipDownloadUrl_of sessionId (fileSizes w)) (fileSizes w)), w).

Definition convert (req : Request) : M Response :=
  try_catch
    (match req_files req with
     | None =>
         throw (mkError None
                  "Cannot read properties of undefined (reading 'map')")
     | Some req_files =>
         if (length req_files =? 0)%nat then
           console_warn "No files uploaded" ;;
           ret (RespError 400 "No files uploaded")
         else
           let sessionId := sessionId_of req in
           ensureDir env (outputDir_of sessionId) ;;
           new_arrays ;;
           for_of req_files (convert_file sessionId) ;;
           respond sessionId
     end)
    (fun err =>
       console_error ("Conversion endpoint error: " +:+ message err) ;;
       ret (RespError 500 ("Server error: " +:+ message err))).

(** ** [res.download]

    Express hands a regular file to the network; for a directory, and
    for a path that names nothing, the callback gets an error before any
    header is sent. *)
Definition res_download (path : string) : M Delivery :=
  fun w =>
    match find env path (files w) with
    | IsFile _ => (Ok (delivery env path), w)
    | IsDir => (Ok (NotSent (mkError (Some "EISDIR") "EISDIR, read") false), w)
    | Absent e => (Ok (NotSent (system_error e "stat" path) false), w)
    end.

(** ** [GET /download/:session/:filename], lines 44-59 *)

(** The callback of [res.download], lines 49-54; it runs after the
    handler has returned, out of reach of its [catch]. *)
Definition download_file_callback (filePath filename : string) : M Response :=
  let* outcome := res_download filePath in
  match outcome with
  | NotSent err headersSent =>
      console_error ("Download error: " +:+ message err) ;;
      res_json headersSent (RespError 500 "Failed to download file")
  | Sent => ret (RespDownload filePath filename)
  end.

Definition download_file (session filename : string) : M Response :=
  let filePath := path_join env [__dirname env; "public"; session; filename] in
  let* answered :=
    try_catch
      (access env filePath ;;
       ret None)
      (fun err =>
         console_error ("File not found: " +:+ filePath) ;;
         ret (Some (RespError 404 "File not found")))
  in
  match answered with
  | Some response => ret response
  | None => download_file_callback filePath filename
  end.

(** ** [GET /download-zip/:session], lines 62-105 *)

(** The callback of [res.download], lines 94-100. *)
Definition download_callback (zipPath : string) : M Response :=
  let* outcome := res_download zipPath in
  let* response :=
    match outcome with
    | NotSent err headersSent =>
        console_error ("ZIP download error: " +:+ message err) ;;
        res_json headersSent (RespError 500 "Failed to download ZIP")
    | Sent => ret (RespDownload zipPath "converted_images.zip")
    end in
  promise_catch (unlink env zipPath)
    (fun err => console_error ("Failed to delete ZIP: " +:+ message err)) ;;
  ret response.

(** Line 74: the stream opens the transient file.  When it cannot, it
    emits an [error] event; the route has no listener for it. *)
Definition createWriteStream (path : string) : M (option Error) :=
  fun w =>
    match refuse env (SysOpen path) with
    | Some e => (Ok (Some e), w)
    | None =>
        match write_file env path 0 (files w) with
        | inr fs => (Ok None, with_files fs w)
        | inl e => (Ok (Some (system_error e "open" path)), w)
        end
    end.

(** The archive is complete: the file has its final size. *)
Definition close_stream (path : string) (size : Z) : M unit :=
  fun w => (Ok tt, with_files (<[resolve env path := File size]> (files w)) w).

(** Lines 74-92: the archiver fills the transient file; an archiver
    error rejects [zipPromise] and leaves what was written so far. *)
Definition build_archive (sessionDir zipPath : string) : M Started :=
  let* failed := createWriteStream zipPath in
  match failed with
  | Some err => ret (Unhandled err)
  | None =>
      match archiver env sessionDir with
      | Throw err =>
          console_error ("Archiver error: " +:+ message err) ;;
          throw err
      | Ok size =>
          close_stream zipPath size ;;
          ret Handed
      end
  end.

Definition download_zip (session : string) : M Response :=
  let sessionDir := path_join env [__dirname env; "public"; session] in
  let zipPath := path_join env [__dirname env; "public"; session +:+ ".zip"] in
  let* started :=
    try_catch
      (let* files := readdir env sessionDir in
       if (length files =? 0)%nat then
         console_warn ("No files found in " +:+ sessionDir) ;;
         ret (Answered (RespError 404 "No files available to zip"))
       else
         build_archive sessionDir zipPath)
      (fun err =>
         console_error ("ZIP creation error: " +:+ message err) ;;
         ret (Answered
                (RespError 500 ("Failed to create ZIP: " +:+ message err))))
  in
  match started with
  | Answered response => ret response
  | Handed => download_callback zipPath
  | Unhandled err => throw err
  end.

(** ** The rest of the server *)

(** The handler of undefined routes, lines 225-228, and the global error
    handler, lines 231-234. *)
Definition route_not_found (method url : string) : M Response :=
  console_warn ("404: Route not found - " +:+ method +:+ " " +:+ url) ;;
  ret (RespError 404 "Route not found").

Definition error_handler (err : Error) : M Response :=
  console_error ("Unhandled error: " +:+ message err) ;;
  ret (RespError 500 "Internal server error").

End Convert.

(** The [fileFilter] of the multer configuration, lines 18-25: the
    callback gets [(null, true)] or an [Error]. *)
Definition validTypes : list string :=
  ["image/jpeg"; "image/png"; "image/webp"; "image/gif"].

Definition fileFilter (mimetype : string) : Result bool :=
  if bool_decide (mimetype ∈ validTypes) then Ok true
  else Throw (mkError None
                "Invalid file type. Only JPEG, PNG, WebP, and GIF are allowed.").

(** ** Vocabulary of the properties *)

(** The arrays are touched by [push] only. *)
Definition same_arrays (w w' : World) : Prop :=
  fileSizes w' = fileSizes w /\ downloadUrls w' = downloadUrls w.

Definition keeps_arrays {A} (m : M A) : Prop :=
  forall w, same_arrays w (snd (m w)).

(** The three object literals of the loop body. *)
Definition skipped_entry (file : File.t) (o : Z) : FileSize :=
  mkFileSize (File.originalname file) o o (Some true) None None.
Definition converted_entry (file : File.t) (o c : Z) : FileSize :=
  mkFileSize (File.originalname file) o c None None None.
Definition failed_entry (file : File.t) (msg : string) : FileSize :=
  mkFileSize (File.originalname file) (File.size file) (File.size file)
    None (Some true) (Some msg).

Definition download_url (env : Env) (sessionId : string) (file : File.t) : string :=
  "/download/" +:+ sessionId +:+ "/" +:+ outputFilename_of env file.

(** What one pass of the loop body may push: a pair of an element of
    [fileSizes] and the element of [downloadUrls] pushed with it. *)
Inductive pushed_pair (env : Env) (sessionId : string) (file : File.t)
  : FileSize * string -> Prop :=
| pushed_skipped o : pushed_pair env sessionId file (skipped_entry file o, "")
| pushed_converted o c :
    c < o ->
    pushed_pair env sessionId file
      (converted_entry file o c, download_url env sessionId file)
| pushed_failed msg : pushed_pair env sessionId file (failed_entry file msg, "").

Definition pushes (w w' : World) (l : list (FileSize * string)) : Prop :=
  fileSizes w' = fileSizes w ++ l.*1 /\ downloadUrls w' = downloadUrls w ++ l.*2.

(** The encodes recorded in a trace. *)
Fixpoint encodes (t : list Event) : nat :=
  match t with
  | [] => 0%nat
  | EvEncode _ _ _ :: t' => S (encodes t')
  | _ :: t' => encodes t'
  end.

(** The test of line 130. *)
Definition retried (originalSize quality attempts size : Z) : Prop :=
  size >= originalSize /\ quality > 10 /\ attempts < maxAttempts.

(** [extends w w' e]: from [w] to [w'] the trace grew, and [e] is the
    first event that was added. *)
Definition extends (w w' : World) (e : Event) : Prop :=
  exists evs, trace w' = evs ++ e :: trace w.

(** Line 109. *)
Definition first_quality (isWebP : bool) : Z := if isWebP then 50 else 70.

(** [pass_of env i o orig isWebP w0 q a w]: the loop that
    [optimizeWebP] starts in [w0] comes to a pass with [quality = q] and
    [attempts = a] in the world [w]. *)
Inductive pass_of (env : Env) (i o : string) (orig : Z) (isWebP : bool)
    (w0 : World) : Z -> Z -> World -> Prop :=
| pass_first : pass_of env i o orig isWebP w0 (first_quality isWebP) 0 w0
| pass_next q a w size w' :
    pass_of env i o orig isWebP w0 q a w ->
    attempt env i o orig q a w = (Ok (Retry size), w') ->
    a + 1 < maxAttempts ->
    pass_of env i o orig isWebP w0 (q - 20) (a + 1) w'.

(** [preserves f m]: running [m] leaves the observation [f] of the world
    as it was, whether [m] returns or throws. *)
Definition preserves {X} (f : World -> X) {A} (m : M A) : Prop :=
  forall w, f (snd (m w)) = f w.

Definition arrays (w : World) : list FileSize * list string :=
  (fileSizes w, downloadUrls w).

(** An observation of the disk alone. *)
Definition on_disk {X} (g : FileSystem -> X) (w : World) : X := g (files w).

(** The regular file at a location. *)
Definition file_at (p : Location) (fs : FileSystem) : option Z :=
  match node_at p fs with
  | Some (File size) => Some size
  | _ => None
  end.

Definition is_dir (p : Location) (fs : FileSystem) : bool :=
  match node_at p fs with
  | Some Dir => true
  | _ => false
  end.

(** [q] lies directly in the directory [dir]. *)
Definition inside (dir q : Location) : Prop := exists name, q = dir ++ [name].

(** The calls of [unlink] on the location [p] recorded in a trace,
    refused or not. *)
Fixpoint unlink_calls (env : Env) (p : Location) (t : list Event) : nat :=
  match t with
  | [] => 0%nat
  | EvUnlink path _ :: t' =>
      if decide (resolve env path = p) then S (unlink_calls env p t')
      else unlink_calls env p t'
  | _ :: t' => unlink_calls env p t'
  end.

Definition calls_on (env : Env) (p : Location) (w : World) : nat :=
  unlink_calls env p (trace w).

(** [added w w' P]: from [w] to [w'] the trace grew by events that all
    satisfy [P]. *)
Definition added (w w' : World) (P : Event -> Prop) : Prop :=
  exists evs, trace w' = evs ++ trace w /\ Forall P evs.

Definition encodes_at (allowed : list Z) (e : Event) : Prop :=
  match e with
  | EvEncode _ quality _ => quality ∈ allowed
  | _ => True
  end.

(** The qualities a loop can come to from [quality] and [attempts]. *)
Definition steps_down (quality attempts : Z) (e : Event) : Prop :=
  match e with
  | EvEncode _ q' _ =>
      exists k, 0 <= k <= Z.max 0 (2 - attempts) /\ q' = quality - 20 * k
  | _ => True
  end.

(** Where the loop body reads and writes for a file. *)
Definition upload_at (env : Env) (file : File.t) : Location :=
  resolve env (File.path file).

Definition output_at (env : Env) (sessionId : string) (file : File.t) : Location :=
  resolve env (outputPath_of env sessionId file).

(** No upload of the list lies where the route writes an output. *)
Definition apart (env : Env) (sessionId : string) (l : list File.t) : Prop :=
  forall f g, f ∈ l -> g ∈ l -> upload_at env f <> output_at env sessionId g.

(** What the loop body pushes for a file, and what it leaves at the
    output: nothing but a Failed outcome; a Skipped outcome, the output
    gone; or a Converted outcome, the output on disk with the size the
    outcome reports.  A Failed outcome may follow the last two. *)
Inductive way (env : Env) (sid : string) (file : File.t) (w' : World)
  : list (FileSize * string) -> Prop :=
| way_failed msg : way env sid file w' [(failed_entry file msg, "")]
| way_skipped o rest :
    lookup_file env (outputPath_of env sid file) (files w') = None ->
    (rest = [] \/ exists msg, rest = [(failed_entry file msg, "")]) ->
    way env sid file w' ((skipped_entry file o, "") :: rest)
| way_converted o c rest :
    c < o ->
    lookup_file env (outputPath_of env sid file) (files w') = Some c ->
    (rest = [] \/ exists msg, rest = [(failed_entry file msg, "")]) ->
    way env sid file w'
      ((converted_entry file o c, download_url env sid file) :: rest).

(** The answer [404 No files available to zip] of the archive route. *)
Definition no_files_answer (r : Result Response) : bool :=
  match r with
  | Ok (RespError status _) => status =? 404
  | _ => false
  end.

(** ** A concrete environment to run the model on *)

Module Demo.

(** Node's [path.extname] and [path.basename] on plain file names (no
    directory separators). *)
Fixpoint from_last_dot (s : string) : option string :=
  match s with
  | EmptyString => None
  | String c s' =>
      match from_last_dot s' with
      | Some e => Some e
      | None => if Ascii.eqb c (Ascii.ascii_of_nat 46) then Some s else None
      end
  end.

Definition extname (s : string) : string :=
  if String.eqb s ".." then ""
  else
    match s with
    | EmptyString => ""
    | String _ s' => default "" (from_last_dot s')
    end.

Definition basename (s ext : string) : string :=
  let n := (String.length s - String.length ext)%nat in
  if String.eqb ext "" then s
  else if String.eqb s ext then ""
  else if String.eqb (String.substring n (String.length ext) s) ext
  then String.substring 0 n s
  else s.

(** Node's [path.normalize] and [path.join] for POSIX paths. *)
Definition normalize_step (above : bool) (kept : list string) (name : string)
  : list string :=
  if String.eqb name "" || String.eqb name "." then kept
  else if String.eqb name ".." then
    match last kept with
    | Some top =>
        if String.eqb top ".." then kept ++ [".."] else removelast kept
    | None => if above then [".."] else []
    end
  else kept ++ [name].

Fixpoint unsplit (names : list string) : string :=
  match names with
  | [] => ""
  | [name] => name
  | name :: names' => name +:+ "/" +:+ unsplit names'
  end.

Definition normalize (s : string) : string :=
  if String.eqb s "" then "."
  else
    let absolute := is_absolute s in
    let body := unsplit (foldl (normalize_step (negb absolute)) [] (split_path s)) in
    let body := if String.eqb body "" && negb absolute then "." else body in
    let body :=
      if negb (String.eqb body "") && ends_with_slash s then body +:+ "/"
      else body in
    if absolute then "/" +:+ body else body.

Definition join (parts : list string) : string :=
  normalize (unsplit (filter (fun part => part <> "") parts)).

(** The application lives in [/srv/app] and runs there. *)
Definition root : string := "/srv/app".

Definition no_input (path : string) : Error :=
  mkError None ("Input file is missing: " +:+ path).

Definition no_output (path : string) : Error :=
  mkError None (path +:+ ": unable to open for write").

Definition no_refusal : Syscall -> option Error := fun _ => None.

(** The codec as a table from quality to encoded size; an absent
    quality is a codec fault. *)
Definition table (l : list (Z * Z)) : string -> Z -> Result Z :=
  fun _ q =>
    match list_find (fun e => fst e = q) l with
    | Some (_, (_, size)) => Ok size
    | None => Throw (mkError None "codec fault")
    end.

Definition env (codec : string -> Z -> Result Z)
    (refuse : Syscall -> option Error) : Env :=
  mkEnv root root join extname basename 1700000000000 codec no_input no_output
    (fun _ => Ok 4096) (fun _ => Sent) refuse 4096.

(** A disk from its directories and its files. *)
Definition disk_of (dirs : list string) (sized : list (string * Z)) : FileSystem :=
  foldr (fun e fs => <[locate root e.1 := File e.2]>
                       (make_dirs (parent (locate root e.1)) fs))
    (foldr (fun d fs => make_dirs (locate root d) fs) ∅ dirs) sized.

(** An upload of [size] bytes waiting in [uploads/tmp1]. *)
Definition disk (size : Z) : FileSystem :=
  disk_of ["public"] [("uploads/tmp1", size)].

Definition world (size : Z) : World := mkWorld (disk size) [] [] [].

Definition jpeg (size : Z) : File.t :=
  File.mk "photo.jpg" "uploads/tmp1" size "image/jpeg".

Definition webp (size : Z) : File.t :=
  File.mk "photo.webp" "uploads/tmp1" size "image/webp".

Definition request (f : File.t) : Request :=
  mkRequest (Some "s1") (Some [f]).

(** The same upload once [ensureDir] has made the session directory. *)
Definition ready (size : Z) : World :=
  mkWorld (disk_of ["public/s1"] [("uploads/tmp1", size)]) [] [] [].

(** The operating system keeps every file of [uploads/] locked. *)
Definition busy (path : string) : Error :=
  mkError (Some "EBUSY")
    ("EBUSY: resource busy or locked, unlink '" +:+ path +:+ "'").

Definition uploads_busy : Syscall -> option Error :=
  fun call =>
    match call with
    | SysUnlink path =>
        if decide (parent (locate root path) = locate root "uploads")
        then Some (busy path) else None
    | _ => None
    end.

(** For the archive route: session [s1] holds one converted file. *)
Definition zip_env (archiver : string -> Result Z)
    (delivery : string -> Delivery) : Env :=
  mkEnv root root join extname basename 1700000000000 (fun _ _ => Ok 0)
    no_input no_output archiver delivery no_refusal 4096.

Definition served : World :=
  mkWorld (disk_of [] [("public/s1/photo.webp", 400000)]) [] [] [].

Definition empty_session : World :=
  mkWorld (disk_of ["public/s1"] []) [] [] [].

Definition queue_closed : Error := mkError None "queue closed".

End Demo.

(** ** More cases to run the model on *)

Module Cases.

(** Two uploads, [uploads/tmp1] and [uploads/tmp2]. *)
Definition two_uploads : World :=
  mkWorld (Demo.disk_of ["public"]
             [("uploads/tmp1", 1000000); ("uploads/tmp2", 2000)]) [] [] [].

(** The same, with the session path [public/s1] taken by a regular
    file. *)
Definition session_is_file : World :=
  mkWorld (Demo.disk_of []
             [("uploads/tmp1", 1000000); ("uploads/tmp2", 2000);
              ("public/s1", 17)]) [] [] [].

Definition photo : File.t :=
  File.mk "photo.jpg" "uploads/tmp1" 1000000 "image/jpeg".

Definition icon : File.t := File.mk "icon.png" "uploads/tmp2" 2000 "image/png".

Definition batch : Request := mkRequest (Some "s1") (Some [photo; icon]).

(** [photo] encodes to 400000 bytes at quality 70; the codec fails on
    [icon]. *)
Definition codec (input : string) (quality : Z) : Result Z :=
  if decide (input = "uploads/tmp1") then Ok 400000
  else Throw (mkError None "Input buffer contains unsupported image format").

Definition env (refuse : Syscall -> option Error) : Env :=
  Demo.env codec refuse.

(** Two files with one base name: [photo.jpg] shrinks to 400000 bytes,
    [photo.png] never gets below its 2000 bytes. *)
Definition same_name : Request :=
  mkRequest (Some "s1")
    (Some [photo; File.mk "photo.png" "uploads/tmp2" 2000 "image/png"]).

Definition same_name_codec (input : string) (quality : Z) : Result Z :=
  if decide (input = "uploads/tmp1") then Ok 400000 else Ok 5000.

Definition same_name_env : Env :=
  Demo.env same_name_codec Demo.no_refusal.

(** The client goes away while the file is on its way: the headers of
    the response are out. *)
Definition aborted : string -> Delivery :=
  fun _ => NotSent (mkError (Some "ECONNABORTED") "Request aborted") true.

(** Express will not send the file (a dot file, say): nothing is out
    yet. *)
Definition not_sent : string -> Delivery :=
  fun _ => NotSent (mkError (Some "ENOENT") "Not Found") false.

(** A session identifier that climbs out of [public/]. *)
Definition climbing : Request :=
  mkRequest (Some "../uploads") (Some [photo]).

End Cases.

(** * Properties *)

(** ** The file system *)

Lemma node_at_insert_eq p n fs : p <> [] -> node_at p (<[p := n]> fs) = Some n.
Proof. intros Hp. destruct p; [contradiction |]. apply lookup_insert_eq. Qed.

Lemma node_at_insert_ne p q n fs :
  p <> q -> node_at q (<[p := n]> fs) = node_at q fs.
Proof. intros Hne. destruct q; [reflexivity |]. apply lookup_insert_ne, Hne. Qed.

Lemma node_at_delete_eq p fs : p <> [] -> node_at p (delete p fs) = None.
Proof. intros Hp. destruct p; [contradiction |]. apply lookup_delete_eq. Qed.

Lemma node_at_delete_ne p q fs :
  p <> q -> node_at q (delete p fs) = node_at q fs.
Proof. intros Hne. destruct q; [reflexivity |]. apply lookup_delete_ne, Hne. Qed.

(** What a path names is decided by the node at its location. *)
Lemma lookup_file_node env s fs :
  lookup_file env s fs =
  if String.eqb s "" || ends_with_slash s then None
  else file_at (resolve env s) fs.
Proof.
  unfold lookup_file, find, file_at. destruct (String.eqb s ""); [reflexivity |].
  simpl. destruct (node_at (resolve env s) fs) as [[size |] |];
    destruct (ends_with_slash s); reflexivity.
Qed.

Lemma lookup_file_ext env s fs fs' :
  node_at (resolve env s) fs' = node_at (resolve env s) fs ->
  lookup_file env s fs' = lookup_file env s fs.
Proof. intros Heq. rewrite !lookup_file_node. unfold file_at. rewrite Heq. reflexivity. Qed.

Lemma find_file env s fs size :
  find env s fs = IsFile size <-> lookup_file env s fs = Some size.
Proof.
  unfold lookup_file. destruct (find env s fs); split; congruence.
Qed.

Lemma find_file_inv env s fs size :
  find env s fs = IsFile size ->
  s <> "" /\ ends_with_slash s = false
  /\ node_at (resolve env s) fs = Some (File size) /\ resolve env s <> [].
Proof.
  unfold find. destruct (String.eqb s "") eqn:Hs; [discriminate |].
  apply String.eqb_neq in Hs.
  destruct (node_at (resolve env s) fs) as [[z |] |] eqn:Hn; try discriminate.
  destruct (ends_with_slash s); [discriminate |]. intros [= ->].
  repeat split; auto. intros Hnil. rewrite Hnil in Hn. discriminate.
Qed.

Lemma find_dir_inv env s fs :
  find env s fs = IsDir -> node_at (resolve env s) fs = Some Dir.
Proof.
  unfold find. destruct (String.eqb s ""); [discriminate |].
  destruct (node_at (resolve env s) fs) as [[z |] |]; try discriminate;
    [destruct (ends_with_slash s); discriminate | reflexivity].
Qed.

Lemma node_remove_ne env s p fs :
  resolve env s <> p -> node_at p (remove_file env s fs) = node_at p fs.
Proof. apply node_at_delete_ne. Qed.

Lemma lookup_remove_eq env s fs : lookup_file env s (remove_file env s fs) = None.
Proof.
  rewrite lookup_file_node. destruct (_ || _); [reflexivity |].
  unfold file_at, remove_file. destruct (resolve env s) as [| n p]; [reflexivity |].
  rewrite node_at_delete_eq by discriminate. reflexivity.
Qed.

Lemma lookup_remove_ne env s s' fs :
  resolve env s <> resolve env s' ->
  lookup_file env s' (remove_file env s fs) = lookup_file env s' fs.
Proof. intros Hne. apply lookup_file_ext, node_remove_ne, Hne. Qed.

Lemma write_file_inv env s size fs fs' :
  write_file env s size fs = inr fs' ->
  fs' = <[resolve env s := File size]> fs
  /\ s <> "" /\ ends_with_slash s = false /\ resolve env s <> []
  /\ node_at (resolve env s) fs <> Some Dir
  /\ node_at (parent (resolve env s)) fs = Some Dir.
Proof.
  unfold write_file. destruct (String.eqb s "") eqn:Hs; [discriminate |].
  apply String.eqb_neq in Hs.
  destruct (node_at (resolve env s) fs) as [[z |] |] eqn:Hn; try discriminate;
    (destruct (ends_with_slash s); [discriminate |]);
    assert (resolve env s <> []) as Hp
      by (intros Hnil; rewrite Hnil in Hn; discriminate);
    (destruct (node_at (parent _) fs) as [[z' |] |] eqn:Hpar; try discriminate);
    intros [= <-]; repeat split; try assumption; try reflexivity;
    intros Heq; discriminate Heq.
Qed.

Lemma lookup_write_eq env s size fs fs' :
  write_file env s size fs = inr fs' -> lookup_file env s fs' = Some size.
Proof.
  intros Hw. apply write_file_inv in Hw as (-> & Hs & Ht & Hp & _).
  rewrite lookup_file_node, Ht. apply String.eqb_neq in Hs. rewrite Hs. simpl.
  unfold file_at. rewrite node_at_insert_eq by exact Hp. reflexivity.
Qed.

Lemma node_write_ne env s p size fs fs' :
  write_file env s size fs = inr fs' -> resolve env s <> p ->
  node_at p fs' = node_at p fs.
Proof.
  intros Hw Hne. apply write_file_inv in Hw as (-> & _).
  apply node_at_insert_ne, Hne.
Qed.

Lemma lookup_write_ne env s s' size fs fs' :
  write_file env s size fs = inr fs' -> resolve env s <> resolve env s' ->
  lookup_file env s' fs' = lookup_file env s' fs.
Proof. intros Hw Hne. eapply lookup_file_ext, node_write_ne; eassumption. Qed.

(** ** System calls and the encoder *)

Lemma stat_inv env s w r w' : stat env s w = (r, w') -> w' = w.
Proof.
  unfold stat. destruct (refuse env _); [congruence |].
  destruct (find env s (files w)); congruence.
Qed.

Lemma stat_found env s w size :
  refuse env (SysStat s) = None -> lookup_file env s (files w) = Some size ->
  stat env s w = (Ok size, w).
Proof.
  intros Hr Hl. apply find_file in Hl. unfold stat. rewrite Hr, Hl. reflexivity.
Qed.

(** The size that [stat] reports for a regular file is its size. *)
Lemma stat_of_file env s w size r w' :
  lookup_file env s (files w) = Some size ->
  stat env s w = (Ok r, w') -> r = size.
Proof.
  intros Hl. apply find_file in Hl. unfold stat.
  destruct (refuse env _); [discriminate |]. rewrite Hl. congruence.
Qed.

Lemma unlink_ok_inv env s w w' :
  unlink env s w = (Ok tt, w') ->
  w' = record (EvUnlink s true) (with_files (remove_file env s (files w)) w).
Proof.
  unfold unlink. destruct (refuse env _); [discriminate |].
  destruct (find env s (files w)); [| discriminate | discriminate]. congruence.
Qed.

Lemma unlink_ok env s w size :
  refuse env (SysUnlink s) = None -> lookup_file env s (files w) = Some size ->
  unlink env s w
  = (Ok tt, record (EvUnlink s true) (with_files (remove_file env s (files w)) w)).
Proof.
  intros Hr Hl. apply find_file in Hl. unfold unlink. rewrite Hr, Hl. reflexivity.
Qed.

Lemma unlink_node_ne env s p w :
  resolve env s <> p ->
  node_at p (files (snd (unlink env s w))) = node_at p (files w).
Proof.
  intros Hne. unfold unlink. destruct (refuse env _); [reflexivity |].
  destruct (find env s (files w)); try reflexivity.
  simpl. apply node_remove_ne, Hne.
Qed.

Lemma unlink_lookup_ne env s s' w :
  resolve env s <> resolve env s' ->
  lookup_file env s' (files (snd (unlink env s w))) = lookup_file env s' (files w).
Proof. intros Hne. apply lookup_file_ext, unlink_node_ne, Hne. Qed.

Lemma unlink_encodes env s w :
  encodes (trace (snd (unlink env s w))) = encodes (trace w).
Proof.
  unfold unlink. destruct (refuse env _); [reflexivity |].
  destruct (find env s (files w)); reflexivity.
Qed.

Lemma sharp_trace env i q o w :
  trace (snd (sharp_webp_toFile env i q o w)) = EvEncode i q o :: trace w.
Proof.
  unfold sharp_webp_toFile. destruct (decide _); [reflexivity |].
  destruct (find env i (files w)); try reflexivity.
  destruct (codec env i q); [| reflexivity].
  destruct (write_file _ _ _ _); reflexivity.
Qed.

Lemma sharp_node_ne env i q o p w :
  resolve env o <> p ->
  node_at p (files (snd (sharp_webp_toFile env i q o w))) = node_at p (files w).
Proof.
  intros Hne. unfold sharp_webp_toFile. destruct (decide _); [reflexivity |].
  destruct (find env i (files w)) as [original | |]; try reflexivity.
  destruct (codec env i q) as [size |]; [| reflexivity].
  destruct (write_file _ _ _ _) eqn:Hw; [reflexivity |].
  simpl. eapply node_write_ne; eassumption.
Qed.

(** What a successful encode has found and left. *)
Lemma sharp_ok_inv env i q o w w1 :
  sharp_webp_toFile env i q o w = (Ok tt, w1) ->
  resolve env i <> resolve env o
  /\ exists original size,
       lookup_file env i (files w) = Some original
       /\ codec env i q = Ok size
       /\ write_file env o size (files w) = inr (files w1)
       /\ lookup_file env o (files w1) = Some size.
Proof.
  unfold sharp_webp_toFile. destruct (decide _) as [| Hne]; [discriminate |].
  destruct (find env i (files w)) as [original | |] eqn:Hf; try discriminate.
  destruct (codec env i q) as [size |]; [| discriminate].
  destruct (write_file _ _ _ _) as [| fs] eqn:Hw; [discriminate |].
  intros [= <-]. split; [exact Hne |]. exists original, size.
  split; [apply find_file, Hf |]. split; [reflexivity |].
  split; [exact Hw |]. exact (lookup_write_eq _ _ _ _ _ Hw).
Qed.

(** ** What a computation leaves as it was *)

Section Preserves.

Context {X : Type} (f : World -> X).

Lemma preserves_ret {A} (a : A) : preserves f (ret a).
Proof. intros w; reflexivity. Qed.

Lemma preserves_throw {A} (e : Error) : preserves f (@throw A e).
Proof. intros w; reflexivity. Qed.

Lemma preserves_bind {A B} (m : M A) (k : A -> M B) :
  preserves f m -> (forall a, preserves f (k a)) -> preserves f (bind m k).
Proof.
  intros Hm Hk w. unfold bind. specialize (Hm w).
  destruct (m w) as [[a | e] w1]; cbn [snd] in *; [| exact Hm].
  rewrite Hk. exact Hm.
Qed.

Lemma preserves_try_catch {A} (m : M A) (h : Error -> M A) :
  preserves f m -> (forall e, preserves f (h e)) -> preserves f (try_catch m h).
Proof.
  intros Hm Hh w. unfold try_catch. specialize (Hm w).
  destruct (m w) as [[a | e] w1]; cbn [snd] in *; [exact Hm |].
  rewrite Hh. exact Hm.
Qed.

Lemma preserves_stat env s : preserves f (stat env s).
Proof.
  intros w. destruct (stat env s w) as [r w'] eqn:Hst.
  apply stat_inv in Hst as ->. reflexivity.
Qed.

End Preserves.

Create HintDb preserves.

#[local] Hint Resolve preserves_ret preserves_throw preserves_stat : preserves.

(** The loop and the transcoder leave alone whatever an encode and an
    [unlink] of the output leave alone. *)
Lemma preserves_attempt {X} (f : World -> X) env i o orig q a :
  (forall q, preserves f (sharp_webp_toFile env i q o)) ->
  preserves f (unlink env o) ->
  preserves f (attempt env i o orig q a).
Proof.
  intros Hs Hu. unfold attempt.
  apply preserves_bind; [apply Hs | intros _].
  apply preserves_bind; [apply preserves_stat | intros size].
  destruct (_ && _).
  - apply preserves_bind; auto with preserves.
  - destruct (size <? 512); auto with preserves.
Qed.

Lemma preserves_search {X} (f : World -> X) env i o orig q a :
  (forall q, preserves f (sharp_webp_toFile env i q o)) ->
  preserves f (unlink env o) ->
  preserves f (search env i o orig q a).
Proof.
  intros Hs Hu w. funelim (search env i o orig q a w); cbn [snd];
    match goal with
    | Hat : attempt ?e ?i ?o ?orig ?q ?a ?w = _ |- _ =>
        pose proof (preserves_attempt f e i o orig q a Hs Hu w) as Hk;
        rewrite Hat in Hk; cbn [snd] in Hk
    end; try exact Hk.
  rewrite <- Hk. auto.
Qed.

Lemma preserves_optimizeWebP {X} (f : World -> X) env i o orig isWebP :
  (forall q, preserves f (sharp_webp_toFile env i q o)) ->
  preserves f (unlink env o) ->
  preserves f (optimizeWebP env i o orig isWebP).
Proof.
  intros Hs Hu. unfold optimizeWebP.
  apply preserves_bind; [apply preserves_search; assumption | intros [size ?]].
  destruct (_ >=? _); [| apply preserves_ret].
  apply preserves_bind; [apply Hs | intros _; apply preserves_stat].
Qed.

(** The two arrays are touched by [push] only. *)
Lemma same_arrays_refl w : same_arrays w w.
Proof. split; reflexivity. Qed.

Lemma same_arrays_trans w1 w2 w3 :
  same_arrays w1 w2 -> same_arrays w2 w3 -> same_arrays w1 w3.
Proof. intros [? ?] [? ?]; split; congruence. Qed.

Lemma keeps_of_preserves {A} (m : M A) : preserves arrays m -> keeps_arrays m.
Proof.
  intros Hm w. specialize (Hm w). unfold arrays in Hm.
  injection Hm as H1 H2. split; assumption.
Qed.

Lemma arrays_unlink env s : preserves arrays (unlink env s).
Proof.
  intros w. unfold unlink. destruct (refuse env _); [reflexivity |].
  destruct (find env s (files w)); reflexivity.
Qed.

Lemma arrays_sharp env i q o : preserves arrays (sharp_webp_toFile env i q o).
Proof.
  intros w. unfold sharp_webp_toFile. destruct (decide _); [reflexivity |].
  destruct (find env i (files w)); try reflexivity.
  destruct (codec env i q); [| reflexivity].
  destruct (write_file _ _ _ _); reflexivity.
Qed.

Lemma keeps_stat env s : keeps_arrays (stat env s).
Proof. apply keeps_of_preserves, preserves_stat. Qed.

Lemma keeps_unlink env s : keeps_arrays (unlink env s).
Proof. apply keeps_of_preserves, arrays_unlink. Qed.

Lemma keeps_optimizeWebP env i o orig isWebP :
  keeps_arrays (optimizeWebP env i o orig isWebP).
Proof.
  apply keeps_of_preserves, preserves_optimizeWebP;
    auto using arrays_sharp, arrays_unlink.
Qed.

(** The transcoder writes and deletes the output only. *)
Lemma keeps_node_optimizeWebP env i o orig isWebP p :
  resolve env o <> p ->
  preserves (on_disk (node_at p)) (optimizeWebP env i o orig isWebP).
Proof.
  intros Hne. apply preserves_optimizeWebP.
  - intros q w. apply sharp_node_ne, Hne.
  - intros w. apply unlink_node_ne, Hne.
Qed.

(** Nothing but the loop body unlinks the upload. *)
Lemma calls_sharp env i q o p :
  preserves (calls_on env p) (sharp_webp_toFile env i q o).
Proof. intros w. unfold calls_on. rewrite sharp_trace. reflexivity. Qed.

Lemma calls_unlink_ne env s p :
  resolve env s <> p -> preserves (calls_on env p) (unlink env s).
Proof.
  intros Hne w. unfold calls_on, unlink. destruct (refuse env _); simpl;
    [destruct (decide (resolve env s = p)); [contradiction | reflexivity] |].
  destruct (find env s (files w)); simpl;
    destruct (decide (resolve env s = p)); try contradiction; reflexivity.
Qed.

Lemma calls_unlink_eq env s w :
  calls_on env (resolve env s) (snd (unlink env s w))
  = S (calls_on env (resolve env s) w).
Proof.
  unfold calls_on, unlink. destruct (refuse env _); simpl;
    [destruct (decide (resolve env s = resolve env s)); [reflexivity | contradiction] |].
  destruct (find env s (files w)); simpl;
    destruct (decide (resolve env s = resolve env s)); try contradiction; reflexivity.
Qed.

Lemma calls_optimizeWebP env i o orig isWebP p :
  resolve env o <> p ->
  preserves (calls_on env p) (optimizeWebP env i o orig isWebP).
Proof.
  intros Hne. apply preserves_optimizeWebP.
  - intros q. apply calls_sharp.
  - apply calls_unlink_ne, Hne.
Qed.

(** ** One pass of the loop, the loop *)

Lemma retried_test orig q a size :
  (size >=? orig) && (q >? 10) && (a <? maxAttempts) = true
  <-> retried orig q a size.
Proof.
  unfold retried. rewrite !andb_true_iff, Z.geb_leb, Z.gtb_ltb, Z.leb_le, !Z.ltb_lt.
  lia.
Qed.

Lemma search_step env i o orig q a w :
  search env i o orig q a w =
  match attempt env i o orig q a w with
  | (Throw e, w1) => (Throw e, w1)
  | (Ok (Break size), w1) => (Ok (size, a), w1)
  | (Ok (Retry size), w1) =>
      if decide (a + 1 < maxAttempts)
      then search env i o orig (q - 20) (a + 1) w1
      else (Ok (size, a + 1), w1)
  end.
Proof.
  rewrite search_equation_1.
  destruct (attempt env i o orig q a w) as [[[size | size] | e] w1]; simpl;
    try reflexivity.
  destruct (Z_lt_dec (a + 1) maxAttempts), (decide (a + 1 < maxAttempts));
    simpl; try reflexivity; contradiction.
Qed.

Lemma attempt_retry env i o orig q a w w1 size :
  sharp_webp_toFile env i q o w = (Ok tt, w1) ->
  stat env o w1 = (Ok size, w1) ->
  retried orig q a size ->
  attempt env i o orig q a w =
  (let* _ := unlink env o in ret (Retry size)) w1.
Proof.
  intros Hs Hst Hr. unfold attempt, bind at 1. rewrite Hs.
  unfold bind at 1. rewrite Hst.
  apply retried_test in Hr. rewrite Hr. reflexivity.
Qed.

Lemma attempt_not_retried env i o orig q a w w1 size :
  sharp_webp_toFile env i q o w = (Ok tt, w1) ->
  stat env o w1 = (Ok size, w1) ->
  ~ retried orig q a size ->
  attempt env i o orig q a w =
  if size <? 512 then (Throw too_small, w1) else (Ok (Break size), w1).
Proof.
  intros Hs Hst Hr. unfold attempt, bind at 1. rewrite Hs.
  unfold bind at 1. rewrite Hst.
  rewrite <- retried_test in Hr. apply not_true_is_false in Hr. rewrite Hr.
  destruct (size <? 512); reflexivity.
Qed.

(** After an encode, the size that [stat] reports is the size of the
    output, a regular file. *)
Lemma encoded_size env i q o w w1 size w2 :
  sharp_webp_toFile env i q o w = (Ok tt, w1) ->
  stat env o w1 = (Ok size, w2) ->
  lookup_file env o (files w1) = Some size.
Proof.
  intros Hs Hst. apply sharp_ok_inv in Hs as (_ & original & c & _ & _ & _ & Hl).
  rewrite (stat_of_file env o w1 c size w2 Hl Hst). exact Hl.
Qed.

Lemma attempt_inv env i o orig q a w r w' :
  attempt env i o orig q a w = (r, w') ->
  match r with
  | Ok (Retry size) =>
      exists w1, sharp_webp_toFile env i q o w = (Ok tt, w1)
        /\ stat env o w1 = (Ok size, w1)
        /\ retried orig q a size
        /\ unlink env o w1 = (Ok tt, w')
  | Ok (Break size) =>
      sharp_webp_toFile env i q o w = (Ok tt, w')
      /\ stat env o w' = (Ok size, w')
      /\ ~ retried orig q a size /\ 512 <= size
      /\ lookup_file env o (files w') = Some size
  | Throw e => True
  end.
Proof.
  unfold attempt, bind at 1.
  destruct (sharp_webp_toFile env i q o w) as [[[] | e] w1] eqn:Hs;
    [| intros [= <- <-]; exact I].
  unfold bind at 1.
  destruct (stat env o w1) as [[size | e] w2] eqn:Hst;
    [| intros [= <- <-]; exact I].
  pose proof (encoded_size _ _ _ _ _ _ _ _ Hs Hst) as Hl.
  pose proof (stat_inv _ _ _ _ _ Hst) as ->.
  destruct (_ && _) eqn:Hr.
  - apply retried_test in Hr. unfold bind, ret.
    destruct (unlink env o w1) as [[[] | e] w3] eqn:Hu; intros [= <- <-];
      [| exact I].
    exists w1. auto.
  - assert (~ retried orig q a size) as Hn.
    { rewrite <- retried_test, Hr. discriminate. }
    destruct (size <? 512) eqn:Hsmall; intros [= <- <-]; [exact I |].
    apply Z.ltb_ge in Hsmall. auto.
Qed.

Lemma attempt_encodes env i o orig q a w :
  encodes (trace (snd (attempt env i o orig q a w))) = S (encodes (trace w)).
Proof.
  unfold attempt, bind at 1.
  pose proof (sharp_trace env i q o w) as Ht.
  destruct (sharp_webp_toFile env i q o w) as [[[] | e] w1]; simpl in Ht;
    [| simpl; rewrite Ht; reflexivity].
  unfold bind at 1.
  destruct (stat env o w1) as [[size | e] w2] eqn:Hst;
    pose proof (stat_inv _ _ _ _ _ Hst) as ->;
    [| simpl; rewrite Ht; reflexivity].
  destruct (_ && _).
  - unfold bind, ret. pose proof (unlink_encodes env o w1) as Hu.
    destruct (unlink env o w1) as [[[] | e] w3]; simpl in *; rewrite Hu, Ht;
      reflexivity.
  - destruct (size <? 512); simpl; rewrite Ht; reflexivity.
Qed.

Lemma attempt_first_event env i o orig q a w :
  extends w (snd (attempt env i o orig q a w)) (EvEncode i q o).
Proof.
  unfold attempt, bind at 1.
  pose proof (sharp_trace env i q o w) as Ht.
  destruct (sharp_webp_toFile env i q o w) as [[[] | e] w1]; simpl in Ht;
    [| exists []; exact Ht].
  unfold bind at 1.
  destruct (stat env o w1) as [[size | e] w2] eqn:Hst;
    pose proof (stat_inv _ _ _ _ _ Hst) as ->;
    [| exists []; exact Ht].
  destruct (_ && _).
  - unfold bind, ret, unlink. destruct (refuse env _); simpl;
      [eexists [_]; simpl; rewrite Ht; reflexivity |].
    destruct (find env o (files w1)); simpl;
      eexists [_]; simpl; rewrite Ht; reflexivity.
  - destruct (size <? 512); exists []; exact Ht.
Qed.

Lemma extends_trans w1 w2 w3 e e' :
  extends w1 w2 e -> extends w2 w3 e' -> extends w1 w3 e.
Proof.
  intros [evs H1] [evs' H2]. exists (evs' ++ e' :: evs).
  rewrite H2, H1, <- app_assoc. reflexivity.
Qed.

Lemma search_first_event env i o orig q a w :
  extends w (snd (search env i o orig q a w)) (EvEncode i q o).
Proof.
  funelim (search env i o orig q a w); simpl;
    match goal with
    | Hat : attempt ?e ?i ?o ?orig ?q ?a ?w = _ |- _ =>
        pose proof (attempt_first_event e i o orig q a w) as Hk;
        rewrite Hat in Hk; simpl in Hk
    end; try exact Hk.
  destruct Hk as [evs Hk].
  match goal with IH : extends _ _ _ |- _ => destruct IH as [evs' Hevs] end.
  exists (evs' ++ EvEncode inputPath (quality - 20) outputPath :: evs).
  rewrite Hevs, Hk, <- app_assoc. reflexivity.
Qed.

Lemma search_encodes env i o orig q a w :
  (encodes (trace (snd (search env i o orig q a w)))
   <= encodes (trace w) + Z.to_nat (Z.max 1 (maxAttempts - a)))%nat.
Proof.
  funelim (search env i o orig q a w); simpl;
    match goal with
    | Hat : attempt ?e ?i ?o ?orig ?q ?a ?w = _ |- _ =>
        pose proof (attempt_encodes e i o orig q a w) as Hk;
        rewrite Hat in Hk; simpl in Hk
    end; unfold maxAttempts in *; try lia.
Qed.

Lemma search_ok_inv env i o orig q a w size a' w' :
  a < maxAttempts ->
  search env i o orig q a w = (Ok (size, a'), w') ->
  (a' < maxAttempts /\ stat env o w' = (Ok size, w') /\ 512 <= size
   /\ lookup_file env o (files w') = Some size)
  \/ (a' = maxAttempts /\ size >= orig).
Proof.
  funelim (search env i o orig q a w); intros Ha Hrun;
    match goal with
    | Hat : attempt _ _ _ _ _ _ _ = _ |- _ =>
        pose proof (attempt_inv _ _ _ _ _ _ _ _ _ Hat) as Hk; simpl in Hk
    end.
  - injection Hrun as <- <- <-. left. tauto.
  - discriminate Hrun.
  - eauto.
  - injection Hrun as <- <- <-. right.
    destruct Hk as (w2 & _ & _ & (Hge & _ & Hlt) & _).
    unfold maxAttempts in *. split; lia.
Qed.

(** A loop that does not throw has encoded at least once: the input is
    a regular file and the output is another location. *)
Lemma search_ok_input env i o orig q a w r w' :
  search env i o orig q a w = (Ok r, w') ->
  resolve env i <> resolve env o
  /\ exists original, lookup_file env i (files w) = Some original.
Proof.
  rewrite search_step.
  destruct (attempt env i o orig q a w) as [[pass | e] w1] eqn:Hat;
    [| discriminate].
  intros _. apply attempt_inv in Hat.
  assert (exists w2, sharp_webp_toFile env i q o w = (Ok tt, w2)) as [w2 Hs].
  { destruct pass; [destruct Hat as (w2 & Hs & _) | destruct Hat as (Hs & _)]; eauto. }
  apply sharp_ok_inv in Hs as (Hne & original & c & Hl & _). eauto.
Qed.

Lemma pass_search env i o orig isWebP w0 q a w :
  pass_of env i o orig isWebP w0 q a w ->
  search env i o orig (first_quality isWebP) 0 w0 = search env i o orig q a w.
Proof.
  induction 1 as [| q a w size w' _ IH Hat Hlt]; [reflexivity |].
  rewrite IH, (search_step env i o orig q a w), Hat.
  destruct (decide (a + 1 < maxAttempts)); [reflexivity | contradiction].
Qed.

(** ** [optimizeWebP] *)

Lemma fallback_trace env i o w :
  trace (snd (fallback env i o w)) = EvEncode i 20 o :: trace w.
Proof.
  unfold fallback, bind. pose proof (sharp_trace env i 20 o w) as Ht.
  destruct (sharp_webp_toFile env i 20 o w) as [[[] | e] w1]; simpl in *;
    [| exact Ht].
  destruct (stat env o w1) as [r w2] eqn:Hst.
  pose proof (stat_inv _ _ _ _ _ Hst) as ->. exact Ht.
Qed.

Lemma fallback_ok_inv env i o w size w' :
  fallback env i o w = (Ok size, w') ->
  stat env o w' = (Ok size, w') /\ lookup_file env o (files w') = Some size.
Proof.
  unfold fallback, bind.
  destruct (sharp_webp_toFile env i 20 o w) as [[[] | e] w1] eqn:Hs;
    [| discriminate].
  intros Hst. pose proof (encoded_size _ _ _ _ _ _ _ _ Hs Hst) as Hl.
  pose proof (stat_inv _ _ _ _ _ Hst) as ->. auto.
Qed.

Lemma optimizeWebP_unfold env i o orig isWebP w :
  optimizeWebP env i o orig isWebP w =
  match search env i o orig (first_quality isWebP) 0 w with
  | (Ok (size, _), w1) =>
      if size >=? orig then fallback env i o w1 else (Ok size, w1)
  | (Throw e, w1) => (Throw e, w1)
  end.
Proof.
  unfold optimizeWebP, bind, first_quality.
  destruct (search _ _ _ _ _ _ _) as [[[size a'] | e] w1]; [| reflexivity].
  destruct (size >=? orig); reflexivity.
Qed.

Lemma optimizeWebP_ok_inv env i o orig isWebP w size w' :
  optimizeWebP env i o orig isWebP w = (Ok size, w') ->
  stat env o w' = (Ok size, w') /\ lookup_file env o (files w') = Some size.
Proof.
  rewrite optimizeWebP_unfold.
  destruct (search _ _ _ _ _ _ _) as [[[s a'] | e] w1] eqn:Hs; [| discriminate].
  destruct (s >=? orig) eqn:Hge; [apply fallback_ok_inv |].
  intros [= <- <-].
  apply search_ok_inv in Hs as [(_ & Hst & _ & Hl) | (_ & Hs)];
    [auto | | reflexivity].
  rewrite Z.geb_leb in Hge. apply Z.leb_gt in Hge. lia.
Qed.

Lemma optimizeWebP_ok_input env i o orig isWebP w size w' :
  optimizeWebP env i o orig isWebP w = (Ok size, w') ->
  resolve env i <> resolve env o
  /\ exists original, lookup_file env i (files w) = Some original.
Proof.
  rewrite optimizeWebP_unfold.
  destruct (search _ _ _ _ _ _ _) as [[r | e] w1] eqn:Hs; [| discriminate].
  intros _. eapply search_ok_input; eassumption.
Qed.

Lemma optimizeWebP_encodes env i o orig isWebP w :
  (encodes (trace (snd (optimizeWebP env i o orig isWebP w)))
   <= encodes (trace w) + 4)%nat.
Proof.
  rewrite optimizeWebP_unfold.
  pose proof (search_encodes env i o orig (first_quality isWebP) 0 w) as Hs.
  destruct (search _ _ _ _ _ _ _) as [[[s a'] | e] w1]; simpl in Hs;
    change (Z.to_nat (Z.max 1 (maxAttempts - 0))) with 3%nat in Hs.
  - destruct (s >=? orig); simpl; [rewrite fallback_trace; simpl |]; lia.
  - simpl. lia.
Qed.

Lemma optimizeWebP_first_event env i o orig isWebP w :
  extends w (snd (optimizeWebP env i o orig isWebP w))
    (EvEncode i (first_quality isWebP) o).
Proof.
  rewrite optimizeWebP_unfold.
  pose proof (search_first_event env i o orig (first_quality isWebP) 0 w) as Hs.
  destruct (search _ _ _ _ _ _ _) as [[[s a'] | e] w1]; simpl in Hs;
    [| exact Hs].
  destruct (s >=? orig); [| exact Hs].
  eapply extends_trans; [exact Hs |].
  exists []. apply fallback_trace.
Qed.

(** C3.  The quality search goes by these steps.  (1) The first encode is
    at quality 50 for a source that is already WebP and at 70 otherwise.
    (2) After a pass whose encoded size is at least the original size,
    with quality above 10 and fewer than 3 attempts counted, the output is
    unlinked and the loop goes on with the quality lowered by 20 and the
    counter raised by 1 (or leaves, when the counter has reached 3).
    (3) When the loop leaves with a size that is not below the original
    size, as it does whenever the counter has reached 3, exactly one more
    encode is made, at quality 20, and the size it yields is what the
    caller gets.  (4) No run makes more than 4 encodes. *)
Theorem quality_search_steps env i o orig isWebP w :
  extends w (snd (optimizeWebP env i o orig isWebP w))
    (EvEncode i (if isWebP then 50 else 70) o)
  /\ (forall q a w0 w1 size w2,
        sharp_webp_toFile env i q o w0 = (Ok tt, w1) ->
        stat env o w1 = (Ok size, w1) ->
        size >= orig -> q > 10 -> a < 3 ->
        unlink env o w1 = (Ok tt, w2) ->
        lookup_file env o (files w2) = None
        /\ search env i o orig q a w0 =
           if decide (a + 1 < 3)
           then search env i o orig (q - 20) (a + 1) w2
           else (Ok (size, a + 1), w2))
  /\ (forall size a' w1,
        search env i o orig (if isWebP then 50 else 70) 0 w
        = (Ok (size, a'), w1) ->
        (a' = 3 -> size >= orig)
        /\ (size >= orig ->
            optimizeWebP env i o orig isWebP w = fallback env i o w1
            /\ trace (snd (fallback env i o w1)) = EvEncode i 20 o :: trace w1
            /\ forall w2 size',
                 sharp_webp_toFile env i 20 o w1 = (Ok tt, w2) ->
                 stat env o w2 = (Ok size', w2) ->
                 optimizeWebP env i o orig isWebP w = (Ok size', w2)))
  /\ (encodes (trace (snd (optimizeWebP env i o orig isWebP w)))
      <= encodes (trace w) + 4)%nat.
Proof.
  split; [apply optimizeWebP_first_event |].
  split; [| split; [| apply optimizeWebP_encodes]].
  - intros q a w0 w1 size w2 Hs Hst Hge Hq Ha Hu.
    pose proof (unlink_ok_inv _ _ _ _ Hu) as ->. split.
    + simpl. apply lookup_remove_eq.
    + rewrite search_step.
      rewrite (attempt_retry env i o orig q a w0 w1 size Hs Hst)
        by (unfold retried, maxAttempts; lia).
      unfold bind, ret. rewrite Hu. reflexivity.
  - intros size a' w1 Hsearch. split.
    + intros ->. apply search_ok_inv in Hsearch as [(Hlt & _) | (_ & Hge)];
        unfold maxAttempts in *; [lia | exact Hge | lia].
    + intros Hge.
      assert (optimizeWebP env i o orig isWebP w = fallback env i o w1) as Hfb.
      { rewrite optimizeWebP_unfold. unfold first_quality. rewrite Hsearch.
        replace (size >=? orig) with true; [reflexivity |].
        symmetry. rewrite Z.geb_leb. apply Z.leb_le. lia. }
      split; [exact Hfb |]. split; [apply fallback_trace |].
      intros w2 size' Hs Hst. rewrite Hfb. unfold fallback, bind.
      rewrite Hs. exact Hst.
Qed.

Lemma quality_search_steps_witness :
  let env := Demo.env (Demo.table [(70, 2000); (50, 300)]) Demo.no_refusal in
  let input := "uploads/tmp1" in
  let output := "/srv/app/public/s1/photo.webp" in
  let w0 := Demo.ready 1000 in
  let w1 := snd (sharp_webp_toFile env input 70 output w0) in
  let w2 := snd (unlink env output w1) in
  lookup_file env output (files w2) = None
  /\ search env input output 1000 70 0 w0 =
     if decide (0 + 1 < 3)
     then search env input output 1000 (70 - 20) (0 + 1) w2
     else (Ok (2000, 0 + 1), w2).
Proof.
  intros env input output w0 w1 w2.
  apply (proj1 (proj2 (quality_search_steps env input output 1000 false w0))
           70 0 w0 w1 2000 w2).
  - vm_compute; reflexivity.
  - vm_compute; reflexivity.
  - vm_compute; discriminate.
  - reflexivity.
  - reflexivity.
  - vm_compute; reflexivity.
Defined.

(** ** The loop body *)

Lemma pushes_nil w w' : same_arrays w w' -> pushes w w' [].
Proof. intros [H1 H2]; split; simpl; rewrite app_nil_r; assumption. Qed.

Lemma pushes_app w1 w2 w3 l1 l2 :
  pushes w1 w2 l1 -> pushes w2 w3 l2 -> pushes w1 w3 (l1 ++ l2).
Proof.
  intros [H1 H2] [H3 H4]; split; rewrite ?fmap_app, ?app_assoc; congruence.
Qed.

Lemma pushes_same_l w1 w2 w3 l :
  same_arrays w1 w2 -> pushes w2 w3 l -> pushes w1 w3 l.
Proof. intros [H1 H2] [H3 H4]; split; congruence. Qed.

Lemma convert_catch_pushes env file err w :
  exists w', convert_catch env file err w = (Ok tt, w')
    /\ pushes w w' [(failed_entry file (message err), "")].
Proof.
  unfold convert_catch, promise_catch, try_catch, console_error, emit, bind,
    push_fileSizes, push_downloadUrls.
  match goal with |- context [unlink ?e ?p ?w0] =>
    pose proof (keeps_unlink e p w0) as Hk;
    destruct (unlink e p w0) as [[[] | e'] w1] end;
  eexists; (split; [reflexivity |]); destruct Hk as [Hk1 Hk2]; simpl in *;
    split; simpl; first [exact Hk1 | exact Hk2].
Qed.

Lemma convert_catch_node env file err w p :
  p <> upload_at env file ->
  node_at p (files (snd (convert_catch env file err w))) = node_at p (files w).
Proof.
  intros Hne.
  unfold convert_catch, promise_catch, try_catch, console_error, emit, bind,
    push_fileSizes, push_downloadUrls.
  match goal with |- context [unlink ?e ?q ?w0] =>
    pose proof (unlink_node_ne e q p w0 (not_eq_sym Hne)) as Hk;
    destruct (unlink e q w0) as [[[] | e'] w1] end; exact Hk.
Qed.

Lemma convert_catch_calls env file err w :
  calls_on env (upload_at env file) (snd (convert_catch env file err w))
  = S (calls_on env (upload_at env file) w).
Proof.
  unfold convert_catch, promise_catch, try_catch, console_error, emit, bind,
    push_fileSizes, push_downloadUrls.
  match goal with |- context [unlink ?e ?q ?w0] =>
    pose proof (calls_unlink_eq e q w0) as Hk;
    destruct (unlink e q w0) as [[[] | e'] w1] end; exact Hk.
Qed.

Lemma convert_try_pushes env sid file w r w1 :
  convert_try env sid file w = (r, w1) ->
  exists l, pushes w w1 l /\ Forall (pushed_pair env sid file) l
    /\ (length l <= 1)%nat /\ (r = Ok tt -> l <> []).
Proof.
  unfold convert_try, bind.
  pose proof (keeps_stat env (File.path file) w) as Hs.
  destruct (stat env _ w) as [[o | e] w2]; simpl in Hs.
  2: { intros [= <- <-]. exists []. split; [apply pushes_nil, Hs |].
       split; [constructor |]. split; [simpl; lia | discriminate]. }
  match goal with |- context [optimizeWebP ?e ?i ?o ?s ?b ?w0] =>
    pose proof (keeps_optimizeWebP e i o s b w0) as Ho;
    destruct (optimizeWebP e i o s b w0) as [[c | e'] w3] end; simpl in Ho.
  2: { intros [= <- <-]. exists []. split.
       - apply pushes_nil. eapply same_arrays_trans; eassumption.
       - split; [constructor |]. split; [simpl; lia | discriminate]. }
  pose proof (same_arrays_trans _ _ _ Hs Ho) as Hso. clear Hs Ho.
  destruct (c >=? o) eqn:Hge.
  - unfold bind.
    match goal with |- context [unlink ?e ?p w3] =>
      pose proof (keeps_unlink e p w3) as Hu;
      destruct (unlink e p w3) as [[[] | e'] w4] end; simpl in Hu.
    2: { intros [= <- <-]. exists []. split.
         - apply pushes_nil. eapply same_arrays_trans; eassumption.
         - split; [constructor |]. split; [simpl; lia | discriminate]. }
    pose proof (same_arrays_trans _ _ _ Hso Hu) as [Hf Hd]. clear Hso Hu.
    unfold push_fileSizes, push_downloadUrls. simpl.
    match goal with |- context [unlink ?e ?p ?w0] =>
      pose proof (keeps_unlink e p w0) as [Hk1 Hk2];
      destruct (unlink e p w0) as [r' w5] end; simpl in *.
    intros Heq. exists [(skipped_entry file o, "")].
    assert (w5 = w1) as -> by (destruct r'; congruence).
    split; [split; simpl; rewrite <- ?Hf, <- ?Hd; assumption |].
    split; [repeat constructor |]. split; [simpl; lia | discriminate].
  - destruct Hso as [Hf Hd].
    unfold bind, push_fileSizes, push_downloadUrls. simpl.
    match goal with |- context [unlink ?e ?p ?w0] =>
      pose proof (keeps_unlink e p w0) as [Hk1 Hk2];
      destruct (unlink e p w0) as [r' w5] end; simpl in *.
    intros Heq.
    exists [(converted_entry file o c, download_url env sid file)].
    assert (w5 = w1) as -> by (destruct r'; congruence).
    split; [split; simpl; rewrite <- ?Hf, <- ?Hd; assumption |].
    split; [| split; [simpl; lia | discriminate]].
    repeat constructor. rewrite Z.geb_leb in Hge. apply Z.leb_gt in Hge. exact Hge.
Qed.

Lemma convert_file_pushes env sid file w :
  exists w' l, convert_file env sid file w = (Ok tt, w')
    /\ pushes w w' l /\ l <> [] /\ Forall (pushed_pair env sid file) l.
Proof.
  unfold convert_file, try_catch.
  destruct (convert_try env sid file w) as [r w1] eqn:Htry.
  destruct (convert_try_pushes _ _ _ _ _ _ Htry) as (l & Hp & Hall & _ & Hne).
  destruct r as [[] | err].
  - exists w1, l. auto.
  - destruct (convert_catch_pushes env file err w1) as (w' & Hc & Hp').
    exists w', (l ++ [(failed_entry file (message err), "")]).
    split; [exact Hc |]. split; [eapply pushes_app; eassumption |].
    split; [destruct l; discriminate |].
    apply Forall_app; split; [exact Hall | repeat constructor].
Qed.

Lemma convert_try_after env sid file w orig c w1 :
  stat env (File.path file) w = (Ok orig, w) ->
  optimizeWebP env (File.path file) (outputPath_of env sid file) orig
    (bool_decide (File.mimetype file = "image/webp")) w = (Ok c, w1) ->
  convert_try env sid file w =
  ((if c >=? orig then
      unlink env (outputPath_of env sid file) ;;
      push_fileSizes (skipped_entry file orig) ;;
      push_downloadUrls ""
    else
      push_fileSizes (converted_entry file orig c) ;;
      push_downloadUrls (download_url env sid file)) ;;
   unlink env (File.path file)) w1.
Proof.
  intros Hst Hopt. unfold convert_try, bind at 1. rewrite Hst.
  unfold bind at 1. fold (outputPath_of env sid file). rewrite Hopt. reflexivity.
Qed.

Lemma convert_try_throws env sid file w orig e w1 :
  stat env (File.path file) w = (Ok orig, w) ->
  optimizeWebP env (File.path file) (outputPath_of env sid file) orig
    (bool_decide (File.mimetype file = "image/webp")) w = (Throw e, w1) ->
  convert_try env sid file w = (Throw e, w1).
Proof.
  intros Hst Hopt. unfold convert_try, bind at 1. rewrite Hst.
  unfold bind at 1. fold (outputPath_of env sid file). rewrite Hopt. reflexivity.
Qed.

Lemma cleanup_tail env file w p :
  p <> upload_at env file ->
  exists w' l,
    try_catch (unlink env (File.path file)) (convert_catch env file) w
    = (Ok tt, w')
    /\ pushes w w' l
    /\ (l = [] \/ exists msg, l = [(failed_entry file msg, "")])
    /\ node_at p (files w') = node_at p (files w).
Proof.
  intros Hne. unfold try_catch.
  pose proof (keeps_unlink env (File.path file) w) as Hu.
  pose proof (unlink_node_ne env (File.path file) p w (not_eq_sym Hne)) as Hl.
  destruct (unlink env _ w) as [[[] | e] w1]; simpl in Hu, Hl.
  - exists w1, []. split; [reflexivity |]. split; [apply pushes_nil, Hu |].
    split; [left; reflexivity | exact Hl].
  - destruct (convert_catch_pushes env file e w1) as (w2 & Hc & Hp).
    pose proof (convert_catch_node env file e w1 p Hne) as Hl2.
    rewrite Hc in Hl2. simpl in Hl2.
    exists w2, [(failed_entry file (message e), "")].
    split; [exact Hc |]. split; [eapply pushes_same_l; eassumption |].
    split; [right; eauto | congruence].
Qed.

Lemma convert_file_after env sid file w orig c w1 :
  let input := File.path file in
  let output := outputPath_of env sid file in
  stat env input w = (Ok orig, w) ->
  optimizeWebP env input output orig
    (bool_decide (File.mimetype file = "image/webp")) w = (Ok c, w1) ->
  (c >= orig -> refuse env (SysUnlink output) = None ->
   exists w2,
     convert_file env sid file w
     = try_catch (unlink env input) (convert_catch env file) w2
     /\ pushes w w2 [(skipped_entry file orig, "")]
     /\ lookup_file env output (files w2) = None)
  /\ (c < orig ->
      exists w2,
        convert_file env sid file w
        = try_catch (unlink env input) (convert_catch env file) w2
        /\ pushes w w2 [(converted_entry file orig c, download_url env sid file)]
        /\ lookup_file env output (files w2) = Some c).
Proof.
  intros input output Hst Hopt.
  pose proof (convert_try_after env sid file w orig c w1 Hst Hopt) as Htry.
  pose proof (keeps_optimizeWebP env input output orig
                (bool_decide (File.mimetype file = "image/webp")) w) as [Hk1 Hk2].
  rewrite Hopt in Hk1, Hk2. simpl in Hk1, Hk2.
  pose proof (optimizeWebP_ok_inv _ _ _ _ _ _ _ _ Hopt) as [_ Hout].
  unfold convert_file. split.
  - intros Hge Href. eexists. split; [| split].
    + unfold try_catch at 1. rewrite Htry.
      replace (c >=? orig) with true
        by (symmetry; rewrite Z.geb_leb; apply Z.leb_le; lia).
      unfold bind at 1. unfold bind at 1.
      fold input output. rewrite (unlink_ok env output w1 c Href Hout).
      unfold bind at 1, push_fileSizes at 1. cbv beta iota.
      unfold push_downloadUrls at 1. cbv beta iota. reflexivity.
    + split; simpl; [rewrite Hk1 | rewrite Hk2]; reflexivity.
    + exact (lookup_remove_eq env output (files w1)).
  - intros Hlt. eexists. split; [| split].
    + unfold try_catch at 1. rewrite Htry.
      replace (c >=? orig) with false
        by (symmetry; rewrite Z.geb_leb; apply Z.leb_gt; lia).
      unfold bind at 1. unfold bind at 1, push_fileSizes at 1. cbv beta iota.
      unfold push_downloadUrls at 1. cbv beta iota. reflexivity.
    + split; simpl; [rewrite Hk1 | rewrite Hk2]; reflexivity.
    + exact Hout.
Qed.

(** When the operating system lets the upload go, the [try] block ends in
    one of two ways: it has stopped before any [push], with the upload
    untouched, or it has pushed one outcome and deleted the upload. *)
Lemma convert_try_cases env sid file w r w1 :
  refuse env (SysUnlink (File.path file)) = None ->
  convert_try env sid file w = (r, w1) ->
  (r = Ok tt
   /\ (exists pair, pushes w w1 [pair] /\ pushed_pair env sid file pair)
   /\ calls_on env (upload_at env file) w1
      = S (calls_on env (upload_at env file) w)
   /\ lookup_file env (File.path file) (files w1) = None)
  \/ ((exists e, r = Throw e)
      /\ same_arrays w w1
      /\ calls_on env (upload_at env file) w1
         = calls_on env (upload_at env file) w).
Proof.
  intros Href. unfold convert_try, bind at 1.
  fold (outputPath_of env sid file).
  set (input := File.path file) in *.
  set (output := outputPath_of env sid file).
  change (upload_at env file) with (resolve env input).
  destruct (stat env input w) as [r0 w2] eqn:Hst.
  pose proof (stat_inv _ _ _ _ _ Hst) as ->.
  destruct r0 as [orig | e].
  2: { intros [= <- <-]. right. split; [eauto |].
       split; [apply same_arrays_refl | reflexivity]. }
  unfold bind at 1.
  pose proof (keeps_optimizeWebP env input output orig
                (bool_decide (File.mimetype file = "image/webp")) w) as Hk.
  destruct (optimizeWebP _ _ _ _ _ w) as [[c | e] w3] eqn:Hopt;
    cbn [snd] in Hk.
  2: { intros [= <- <-]. right. split; [eauto |]. split; [exact Hk |].
       destruct (decide (resolve env output = resolve env input)) as [Heq | Hio].
       - revert Hopt. rewrite optimizeWebP_unfold, search_step.
         unfold attempt, bind at 1, sharp_webp_toFile.
         destruct (decide (resolve env input = resolve env output));
           [| congruence].
         intros [= _ <-]. reflexivity.
       - pose proof (calls_optimizeWebP env input output orig
                       (bool_decide (File.mimetype file = "image/webp"))
                       (resolve env input) Hio w) as Hcalls.
         rewrite Hopt in Hcalls. exact Hcalls. }
  destruct (optimizeWebP_ok_input _ _ _ _ _ _ _ _ Hopt) as (Hoi & original & Hup).
  assert (resolve env output <> resolve env input) as Hio by auto.
  pose proof (keeps_node_optimizeWebP env input output orig
                (bool_decide (File.mimetype file = "image/webp"))
                (resolve env input) Hio w) as Hkeep.
  pose proof (calls_optimizeWebP env input output orig
                (bool_decide (File.mimetype file = "image/webp"))
                (resolve env input) Hio w) as Hcalls.
  rewrite Hopt in Hkeep, Hcalls. cbn [snd] in Hkeep, Hcalls.
  unfold on_disk in Hkeep.
  assert (forall w4 pair,
            node_at (resolve env input) (files w4)
            = node_at (resolve env input) (files w) ->
            calls_on env (resolve env input) w4
            = calls_on env (resolve env input) w ->
            pushes w w4 [pair] -> pushed_pair env sid file pair ->
            unlink env input w4 = (r, w1) ->
            r = Ok tt
            /\ (exists pair, pushes w w1 [pair] /\ pushed_pair env sid file pair)
            /\ calls_on env (resolve env input) w1
               = S (calls_on env (resolve env input) w)
            /\ lookup_file env input (files w1) = None) as Hgo.
  { intros w4 pair Hw4 Hc4 Hp4 Hpair Hrun.
    pose proof (calls_unlink_eq env input w4) as Hc.
    pose proof (keeps_unlink env input w4) as Hs.
    assert (lookup_file env input (files w4) = Some original) as Hl4
      by (rewrite (lookup_file_ext env input (files w) (files w4) Hw4); exact Hup).
    rewrite (unlink_ok env input w4 original Href Hl4) in Hrun, Hc, Hs.
    injection Hrun as <- <-. cbn [snd] in Hc, Hs.
    split; [reflexivity |]. split; [| split].
    - exists pair. split; [| exact Hpair].
      destruct Hp4 as [Hp1 Hp2], Hs as [Hs1 Hs2].
      split; [rewrite <- Hp1 | rewrite <- Hp2]; assumption.
    - rewrite <- Hc4. exact Hc.
    - exact (lookup_remove_eq env input (files w4)). }
  destruct (c >=? orig) eqn:Hge.
  - unfold bind at 1. unfold bind at 1.
    pose proof (unlink_node_ne env output (resolve env input) w3 Hio) as Hu.
    pose proof (keeps_unlink env output w3) as Hu1.
    pose proof (calls_unlink_ne env output (resolve env input) Hio w3) as Hu2.
    destruct (unlink env output w3) as [[[] | e] w4]; cbn [snd] in Hu, Hu1, Hu2.
    2: { intros [= <- <-]. right. split; [eauto |].
         split; [eapply same_arrays_trans; eassumption |].
         rewrite Hu2. exact Hcalls. }
    unfold bind at 1, push_fileSizes at 1. cbv beta iota.
    unfold push_downloadUrls at 1. cbv beta iota.
    intros Hrun. left.
    apply (Hgo _ (skipped_entry file orig, "")) in Hrun;
      [exact Hrun | | | | constructor].
    + cbn [files]. rewrite Hu. exact Hkeep.
    + unfold calls_on. cbn [trace]. unfold calls_on in Hu2, Hcalls.
      rewrite Hu2. exact Hcalls.
    + destruct Hk as [Hk1 Hk2], Hu1 as [Hu3 Hu4].
      split; cbn; [rewrite Hu3, Hk1 | rewrite Hu4, Hk2]; reflexivity.
  - unfold bind at 1. unfold bind at 1, push_fileSizes at 1. cbv beta iota.
    unfold push_downloadUrls at 1. cbv beta iota.
    intros Hrun. left.
    apply (Hgo _ (converted_entry file orig c, download_url env sid file))
      in Hrun; [exact Hrun | | | |].
    + exact Hkeep.
    + exact Hcalls.
    + destruct Hk as [Hk1 Hk2].
      split; cbn; [rewrite Hk1 | rewrite Hk2]; reflexivity.
    + constructor. rewrite Z.geb_leb in Hge. apply Z.leb_gt in Hge. exact Hge.
Qed.

(** So there is one outcome for the file, and one call of [unlink] on
    its upload, on every way through the loop body. *)
Lemma convert_file_pushes_one env sid file w :
  refuse env (SysUnlink (File.path file)) = None ->
  exists w' pair,
    convert_file env sid file w = (Ok tt, w')
    /\ pushes w w' [pair] /\ pushed_pair env sid file pair
    /\ calls_on env (upload_at env file) w'
       = S (calls_on env (upload_at env file) w).
Proof.
  intros Href. unfold convert_file, try_catch.
  destruct (convert_try env sid file w) as [r w1] eqn:Htry.
  destruct (convert_try_cases env sid file w r w1 Href Htry)
    as [(-> & (pair & Hp & Hpair) & Hc & _) | ((e & ->) & Hs & Hc)].
  - exists w1, pair. auto.
  - destruct (convert_catch_pushes env file e w1) as (w' & Hrun & Hp).
    pose proof (convert_catch_calls env file e w1) as Hc'.
    rewrite Hrun in Hc'. cbn [snd] in Hc'.
    exists w', (failed_entry file (message e), "").
    split; [exact Hrun |]. split; [eapply pushes_same_l; eassumption |].
    split; [constructor | congruence].
Qed.

(** C2, as the code has it.  In a pass of the search loop that is not
    retried, that is, whose encoded size is below the original size or
    whose quality is 10 or less, an encoded size below 512 bytes makes
    the transcoder throw [Converted file size too small]; the file's
    outcome is then Failed, with that message as errorDetail, and its
    download URL is empty. *)
Theorem too_small_when_not_retried env sid file w orig q a w1 w2 size :
  let input := File.path file in
  let output := outputPath_of env sid file in
  let isWebP := bool_decide (File.mimetype file = "image/webp") in
  stat env input w = (Ok orig, w) ->
  pass_of env input output orig isWebP w q a w1 ->
  sharp_webp_toFile env input q output w1 = (Ok tt, w2) ->
  stat env output w2 = (Ok size, w2) ->
  size < 512 ->
  size < orig \/ q <= 10 ->
  optimizeWebP env input output orig isWebP w = (Throw too_small, w2)
  /\ exists w',
       convert_file env sid file w = (Ok tt, w')
       /\ fileSizes w' =
          fileSizes w ++
          [mkFileSize (File.originalname file) (File.size file)
             (File.size file) None (Some true)
             (Some "Converted file size too small")]
       /\ downloadUrls w' = downloadUrls w ++ [""].
Proof.
  intros input output isWebP Hst Hpass Hs Hst2 Hsmall Hnot.
  assert (optimizeWebP env input output orig isWebP w = (Throw too_small, w2))
    as Hopt.
  { rewrite optimizeWebP_unfold, (pass_search _ _ _ _ _ _ _ _ _ Hpass),
      search_step.
    rewrite (attempt_not_retried env input output orig q a w1 w2 size Hs Hst2)
      by (unfold retried; lia).
    apply Z.ltb_lt in Hsmall. rewrite Hsmall. reflexivity. }
  split; [exact Hopt |].
  unfold convert_file, try_catch.
  rewrite (convert_try_throws env sid file w orig too_small w2 Hst Hopt).
  destruct (convert_catch_pushes env file too_small w2) as (w' & Hc & [Hf Hd]).
  pose proof (keeps_optimizeWebP env input output orig isWebP w) as [Hk1 Hk2].
  rewrite Hopt in Hk1, Hk2. simpl in *.
  exists w'. split; [exact Hc |]. rewrite <- Hk1, <- Hk2. split; assumption.
Qed.

Lemma too_small_when_not_retried_witness :
  let env := Demo.env (Demo.table [(70, 2000); (50, 300)]) Demo.no_refusal in
  let input := "uploads/tmp1" in
  let output := "/srv/app/public/s1/photo.webp" in
  let w := Demo.ready 1000 in
  let w1 := snd (attempt env input output 1000 70 0 w) in
  let w2 := snd (sharp_webp_toFile env input 50 output w1) in
  optimizeWebP env input output 1000 false w = (Throw too_small, w2)
  /\ exists w',
       convert_file env "s1" (Demo.jpeg 1000) w = (Ok tt, w')
       /\ fileSizes w' =
          fileSizes w ++
          [mkFileSize "photo.jpg" 1000 1000 None (Some true)
             (Some "Converted file size too small")]
       /\ downloadUrls w' = downloadUrls w ++ [""].
Proof.
  intros env input output w w1 w2.
  apply (too_small_when_not_retried env "s1" (Demo.jpeg 1000) w 1000 50 1 w1 w2 300).
  - vm_compute; reflexivity.
  - apply (pass_next env input output 1000 false w 70 0 w 2000 w1).
    + apply (pass_first env input output 1000 false w).
    + vm_compute; reflexivity.
    + reflexivity.
  - vm_compute; reflexivity.
  - vm_compute; reflexivity.
  - reflexivity.
  - left; reflexivity.
Defined.

(** C2 as stated fails: an upload of 400 bytes that encodes to 450 bytes
    at every quality.  The first pass yields fewer than 512 bytes, but
    the size is not below the original and the quality is 70, so line 130
    retries; the transcoder ends by returning 450 and the file is
    Skipped, not Failed. *)
Lemma small_output_is_retried :
  let env :=
    Demo.env (Demo.table [(70, 450); (50, 450); (30, 450); (20, 450)])
      Demo.no_refusal in
  codec env "uploads/tmp1" 70 = Ok 450
  /\ 450 < 512
  /\ fst (optimizeWebP env "uploads/tmp1" "/srv/app/public/s1/photo.webp"
            400 false (Demo.ready 400)) = Ok 450
  /\ fst (convert env (Demo.request (Demo.jpeg 400)) (Demo.world 400))
     = Ok (RespConvert [""] ""
             [mkFileSize "photo.jpg" 400 400 (Some true) None None]).
Proof. vm_compute. repeat split; reflexivity. Qed.

(** C4.  When the transcoder returns a size that is at least the size
    measured for the upload, the output is deleted and the outcome pushed
    for the file is Skipped, its convertedSize equal to its originalSize,
    with an empty download URL (the deletion is the [unlink] of line 191;
    the statement is for the runs in which the operating system does not
    refuse it).  Otherwise the outcome is Converted, with the size the
    transcoder returned, which is below the original size, and the
    download URL [/download/{session}/{basename}.webp], which is not
    empty; the output stays on disk. *)
Theorem outcome_skipped_or_converted env sid file w orig c w1 :
  let input := File.path file in
  let output := outputPath_of env sid file in
  let isWebP := bool_decide (File.mimetype file = "image/webp") in
  let w' := snd (convert_file env sid file w) in
  let url :=
    "/download/" +:+ sid +:+ "/"
    +:+ (path_basename env (File.originalname file)
           (path_extname env (File.originalname file)) +:+ ".webp") in
  stat env input w = (Ok orig, w) ->
  optimizeWebP env input output orig isWebP w = (Ok c, w1) ->
  (c >= orig ->
   refuse env (SysUnlink output) = None ->
   exists f,
     fileSizes w' !! length (fileSizes w) = Some f
     /\ status_of f = Skipped
     /\ originalSize f = orig /\ convertedSize f = orig
     /\ downloadUrls w' !! length (downloadUrls w) = Some ""
     /\ lookup_file env output (files w') = None)
  /\ (c < orig ->
      exists f,
        fileSizes w' !! length (fileSizes w) = Some f
        /\ status_of f = Converted
        /\ originalSize f = orig /\ convertedSize f = c
        /\ downloadUrls w' !! length (downloadUrls w) = Some url
        /\ url <> ""
        /\ lookup_file env output (files w') = Some c).
Proof.
  intros input output isWebP w' url Hst Hopt.
  destruct (convert_file_after env sid file w orig c w1 Hst Hopt) as [Hsk Hcv].
  destruct (optimizeWebP_ok_input _ _ _ _ _ _ _ _ Hopt) as (Hio & _).
  assert (resolve env output <> upload_at env file) as Hne by auto.
  split.
  - intros Hge Href. destruct (Hsk Hge Href) as (w2 & Hrun & [Hf Hd] & Hgone).
    destruct (cleanup_tail env file w2 (resolve env output) Hne)
      as (w3 & l & Htail & [Hf3 Hd3] & _ & Hl).
    subst w'. rewrite Hrun, Htail. cbn [snd].
    exists (skipped_entry file orig).
    rewrite (lookup_file_ext env output (files w2) (files w3) Hl).
    rewrite Hf3, Hd3, Hf, Hd, <- !app_assoc. cbn [fmap list_fmap app fst snd].
    rewrite !list_lookup_middle by reflexivity.
    repeat split; auto.
  - intros Hlt. destruct (Hcv Hlt) as (w2 & Hrun & [Hf Hd] & Hkept).
    destruct (cleanup_tail env file w2 (resolve env output) Hne)
      as (w3 & l & Htail & [Hf3 Hd3] & _ & Hl).
    subst w'. rewrite Hrun, Htail. cbn [snd].
    exists (converted_entry file orig c).
    rewrite (lookup_file_ext env output (files w2) (files w3) Hl).
    rewrite Hf3, Hd3, Hf, Hd, <- !app_assoc. cbn [fmap list_fmap app fst snd].
    rewrite !list_lookup_middle by reflexivity.
    repeat split; auto; discriminate.
Qed.

Lemma outcome_skipped_or_converted_witness :
  let env := Demo.env (Demo.table [(70, 400000)]) Demo.no_refusal in
  let file := Demo.jpeg 1000000 in
  let w := Demo.ready 1000000 in
  let w' := snd (convert_file env "s1" file w) in
  exists f,
    fileSizes w' !! length (fileSizes w) = Some f
    /\ status_of f = Converted
    /\ originalSize f = 1000000 /\ convertedSize f = 400000
    /\ downloadUrls w' !! length (downloadUrls w)
       = Some "/download/s1/photo.webp"
    /\ "/download/s1/photo.webp" <> ""
    /\ lookup_file env "/srv/app/public/s1/photo.webp" (files w') = Some 400000.
Proof.
  intros env file w w'.
  refine (proj2 (outcome_skipped_or_converted env "s1" file w 1000000 400000
                   (snd (optimizeWebP env "uploads/tmp1"
                           "/srv/app/public/s1/photo.webp" 1000000 false w))
                   _ _) _).
  - vm_compute; reflexivity.
  - vm_compute; reflexivity.
  - reflexivity.
Defined.

(** C1 does not hold of the code: an upload of 1000 bytes whose encode at
    quality 70 comes out at 300 bytes.  Line 136 throws with the output
    written, the [catch] block records the Failed outcome, its
    errorDetail populated, and unlinks the upload only: the 300 bytes
    stay in the session directory. *)
Theorem failed_outcome_keeps_output :
  let env := Demo.env (Demo.table [(70, 300)]) Demo.no_refusal in
  let (response, w') :=
    convert env (Demo.request (Demo.jpeg 1000)) (Demo.world 1000) in
  response =
    Ok (RespConvert [""] ""
          [mkFileSize "photo.jpg" 1000 1000 None (Some true)
             (Some "Converted file size too small")])
  /\ lookup_file env "/srv/app/public/s1/photo.webp" (files w') = Some 300.
Proof. vm_compute. split; reflexivity. Qed.

(** ** The batch *)

Lemma for_of_convert env sid l : forall w,
  exists w' ls, for_of l (convert_file env sid) w = (Ok tt, w')
    /\ pushes w w' (concat ls)
    /\ Forall2 (fun file pl => pl <> [] /\ Forall (pushed_pair env sid file) pl) l ls.
Proof.
  induction l as [| file l IH]; intros w; simpl.
  - exists w, []. split; [reflexivity |]. split; [| constructor].
    apply pushes_nil, same_arrays_refl.
  - destruct (convert_file_pushes env sid file w) as (w1 & pl & Hrun & Hp & Hne & Hall).
    destruct (IH w1) as (w' & ls & Hrun' & Hp' & Hall').
    exists w', (pl :: ls). unfold bind. rewrite Hrun. split; [exact Hrun' |].
    split; [simpl; eapply pushes_app; eassumption |].
    constructor; auto.
Qed.

Lemma for_of_convert_one env sid l :
  (forall file, file ∈ l -> refuse env (SysUnlink (File.path file)) = None) ->
  forall w,
  exists w' pairs, for_of l (convert_file env sid) w = (Ok tt, w')
    /\ pushes w w' pairs
    /\ Forall2 (pushed_pair env sid) l pairs.
Proof.
  induction l as [| file l IH]; intros Href w; simpl.
  - exists w, []. split; [reflexivity |]. split; [| constructor].
    apply pushes_nil, same_arrays_refl.
  - destruct (convert_file_pushes_one env sid file w (Href file ltac:(left)))
      as (w1 & pair & Hrun & Hp & Hpair & _).
    destruct (IH (fun f Hf => Href f ltac:(right; exact Hf)) w1)
      as (w' & pairs & Hrun' & Hp' & Hall).
    exists w', (pair :: pairs). unfold bind. rewrite Hrun.
    split; [exact Hrun' |]. split; [| constructor; assumption].
    exact (pushes_app _ _ _ [pair] pairs Hp Hp').
Qed.

Lemma pushed_pair_name env sid file pair :
  pushed_pair env sid file pair -> originalName pair.1 = File.originalname file.
Proof. destruct 1; reflexivity. Qed.

Lemma in_concat_pushed env sid l ls p :
  Forall2 (fun file pl => pl <> [] /\ Forall (pushed_pair env sid file) pl) l ls ->
  p ∈ concat ls -> exists file, file ∈ l /\ pushed_pair env sid file p.
Proof.
  induction 1 as [| file pl l ls [_ Hall] _ IH]; simpl; intros Hin.
  - inversion Hin.
  - apply elem_of_app in Hin as [Hin | Hin].
    + exists file. split; [left |]. rewrite Forall_forall in Hall. auto.
    + destruct (IH Hin) as (f & ? & ?). exists f. split; [right |]; assumption.
Qed.

(** The handler of line 218 answers with an error, never with the arrays. *)
Ltac handler_ends :=
  cbv [bind console_error console_warn emit ret throw]; simpl;
  let H := fresh in intros H; discriminate H.

Lemma convert_inv env req w urls zip sizes w' :
  convert env req w = (Ok (RespConvert urls zip sizes), w') ->
  exists l w0,
    req_files req = Some l /\ l <> []
    /\ ensureDir env (outputDir_of env (sessionId_of env req)) w = (Ok tt, w0)
    /\ for_of l (convert_file env (sessionId_of env req)) (fresh_arrays w0) = (Ok tt, w')
    /\ urls = downloadUrls w' /\ sizes = fileSizes w'
    /\ zip = zipDownloadUrl_of (sessionId_of env req) (fileSizes w').
Proof.
  unfold convert, try_catch.
  destruct (req_files req) as [l |]; [| handler_ends].
  destruct l as [| file l]; [handler_ends |].
  change ((length (file :: l) =? 0)%nat) with false. cbv iota.
  unfold bind at 1.
  destruct (ensureDir env _ w) as [[[] | e] w0] eqn:Hdir; [| handler_ends].
  unfold bind at 1, new_arrays at 1.
  unfold bind at 1.
  destruct (for_of _ _ (fresh_arrays w0)) as [[[] | e] w1] eqn:Hfor;
    [| handler_ends].
  unfold respond. intros [= <- <- <- <-].
  exists (file :: l), w0. split; [reflexivity |]. split; [discriminate |].
  split; [reflexivity |]. split; [exact Hfor |]. repeat split; reflexivity.
Qed.

Lemma convert_outcomes env req w urls zip sizes w' :
  convert env req w = (Ok (RespConvert urls zip sizes), w') ->
  exists l ls,
    req_files req = Some l
    /\ Forall2 (fun file pl =>
                  pl <> [] /\ Forall (pushed_pair env (sessionId_of env req) file) pl)
               l ls
    /\ sizes = (concat ls).*1 /\ urls = (concat ls).*2.
Proof.
  intros Hrun.
  apply convert_inv in Hrun as (l & w0 & Hl & _ & _ & Hfor & -> & -> & _).
  destruct (for_of_convert env (sessionId_of env req) l (fresh_arrays w0))
    as (w'' & ls & Hfor' & [Hf Hd] & Hall).
  rewrite Hfor in Hfor'. injection Hfor' as <-.
  exists l, ls. simpl in Hf, Hd. auto.
Qed.

(** X8.  Once the session directory is there the route answers with the
    two arrays, whatever happens to the files: no file aborts the batch,
    and every file has its outcome, or outcomes, in the order of the
    request. *)
Lemma batch_never_aborts env req l w w0 :
  req_files req = Some l -> l <> [] ->
  ensureDir env (outputDir_of env (sessionId_of env req)) w = (Ok tt, w0) ->
  exists w' ls,
    convert env req w
    = (Ok (RespConvert (concat ls).*2
             (zipDownloadUrl_of (sessionId_of env req) (concat ls).*1)
             (concat ls).*1), w')
    /\ Forall2 (fun file pl =>
                  pl <> []
                  /\ Forall (pushed_pair env (sessionId_of env req) file) pl)
               l ls.
Proof.
  intros Hl Hne Hdir.
  destruct (for_of_convert env (sessionId_of env req) l (fresh_arrays w0))
    as (w' & ls & Hfor & [Hf Hd] & Hall).
  exists w', ls. split; [| exact Hall].
  unfold convert, try_catch. rewrite Hl.
  destruct l as [| file l]; [contradiction |].
  change ((length (file :: l) =? 0)%nat) with false. cbv iota.
  unfold bind at 1. rewrite Hdir.
  unfold bind at 1, new_arrays at 1. unfold bind at 1. rewrite Hfor.
  unfold respond. simpl in Hf, Hd. rewrite Hf, Hd. reflexivity.
Qed.

(** X9.  Where the operating system refuses no deletion of an upload of
    the request, the response has exactly one outcome per file, in the
    order of the request. *)
Lemma one_outcome_per_file env req w urls zip sizes w' :
  (forall file, file ∈ default [] (req_files req) ->
     refuse env (SysUnlink (File.path file)) = None) ->
  convert env req w = (Ok (RespConvert urls zip sizes), w') ->
  exists l,
    req_files req = Some l
    /\ map originalName sizes = map File.originalname l
    /\ length urls = length l.
Proof.
  intros Href Hrun.
  apply convert_inv in Hrun as (l & w0 & Hl & _ & _ & Hfor & -> & -> & _).
  rewrite Hl in Href. simpl in Href.
  destruct (for_of_convert_one env (sessionId_of env req) l Href (fresh_arrays w0))
    as (w2 & pairs & Hfor' & [Hf Hd] & Hall).
  rewrite Hfor in Hfor'. injection Hfor' as <-.
  exists l. split; [exact Hl |]. simpl in Hf, Hd. rewrite Hf, Hd.
  clear - Hall. induction Hall as [| file pair l pairs Hp _ IH]; simpl.
  - split; reflexivity.
  - destruct IH as [IH1 IH2]. rewrite (pushed_pair_name _ _ _ _ Hp).
    split; [f_equal; exact IH1 | f_equal; exact IH2].
Qed.

(** C7 does not hold of the code: a batch of one file, which converts,
    while the operating system keeps the upload locked.  The [unlink] of
    line 199 rejects inside the [try], after the Converted outcome was
    pushed; the [catch] block pushes a Failed outcome for the same file.
    The response has two outcomes for one source file. *)
Theorem busy_upload_gives_two_outcomes :
  let env := Demo.env (Demo.table [(70, 400000)]) Demo.uploads_busy in
  exists downloadUrls zipDownloadUrl fileSizes,
    fst (convert env (Demo.request (Demo.jpeg 1000000)) (Demo.world 1000000))
    = Ok (RespConvert downloadUrls zipDownloadUrl fileSizes)
    /\ req_files (Demo.request (Demo.jpeg 1000000))
       = Some [Demo.jpeg 1000000]
    /\ map status_of fileSizes = [Converted; Failed]
    /\ map originalName fileSizes = ["photo.jpg"; "photo.jpg"].
Proof. vm_compute. do 3 eexists. repeat split; reflexivity. Qed.

(** C9 does not hold of the code, in the same run: the failure of the
    cleanup of line 199 is not only logged, it reaches the response as a
    Failed outcome carrying the message of the [unlink]; the upload is
    unlinked twice, in vain, and stays in [uploads/]. *)
Theorem cleanup_failure_reaches_response :
  let env := Demo.env (Demo.table [(70, 400000)]) Demo.uploads_busy in
  let (response, w') :=
    convert env (Demo.request (Demo.jpeg 1000000)) (Demo.world 1000000) in
  response =
    Ok (RespConvert ["/download/s1/photo.webp"; ""] "/download-zip/s1"
          [mkFileSize "photo.jpg" 1000000 400000 None None None;
           mkFileSize "photo.jpg" 1000000 1000000 None (Some true)
             (Some "EBUSY: resource busy or locked, unlink 'uploads/tmp1'")])
  /\ trace w' =
     [EvError
        "Cleanup failed: EBUSY: resource busy or locked, unlink 'uploads/tmp1'";
      EvUnlink "uploads/tmp1" false;
      EvError
        "Error processing photo.jpg: EBUSY: resource busy or locked, unlink 'uploads/tmp1'";
      EvUnlink "uploads/tmp1" false;
      EvEncode "uploads/tmp1" 70 "/srv/app/public/s1/photo.webp"]
  /\ lookup_file env "uploads/tmp1" (files w') = Some 1000000.
Proof. vm_compute. repeat split; reflexivity. Qed.



(** ** The link to the archive *)

Lemma status_converted_iff f :
  status_of f = Converted <-> truthy (error f) || truthy (skipped f) = false.
Proof.
  unfold status_of. destruct (truthy (error f)), (truthy (skipped f)); simpl;
    split; congruence.
Qed.

Lemma converted_or_not l :
  (exists f, f ∈ l /\ status_of f = Converted)
  \/ forallb (fun f => truthy (error f) || truthy (skipped f)) l = true.
Proof.
  induction l as [| f l [(g & Hin & Hg) | IH]]; simpl.
  - right; reflexivity.
  - left. exists g. split; [right |]; assumption.
  - destruct (truthy (error f) || truthy (skipped f)) eqn:Hf.
    + right. exact IH.
    + left. exists f. split; [left | apply status_converted_iff, Hf].
Qed.

Lemma forallb_not_converted l :
  forallb (fun f => truthy (error f) || truthy (skipped f)) l = true ->
  ~ (exists f, f ∈ l /\ status_of f = Converted).
Proof.
  intros Hall (f & Hin & Hst). rewrite forallb_forall in Hall.
  apply status_converted_iff in Hst. apply list_elem_of_In in Hin.
  rewrite (Hall f Hin) in Hst. discriminate.
Qed.

Lemma zipDownloadUrl_of_converted sid l :
  (exists f, f ∈ l /\ status_of f = Converted) ->
  zipDownloadUrl_of sid l = "/download-zip/" +:+ sid.
Proof.
  intros Hex. unfold zipDownloadUrl_of.
  destruct (forallb _ l) eqn:Hall.
  - exfalso. exact (forallb_not_converted l Hall Hex).
  - destruct Hex as (f & Hin & _). destruct l; [inversion Hin | reflexivity].
Qed.

Lemma zipDownloadUrl_of_none sid l :
  ~ (exists f, f ∈ l /\ status_of f = Converted) ->
  zipDownloadUrl_of sid l = "".
Proof.
  intros Hno. unfold zipDownloadUrl_of.
  destruct (converted_or_not l) as [Hex | ->]; [contradiction |].
  rewrite andb_false_r. reflexivity.
Qed.

(** C8.  In every response of the route, zipDownloadUrl is
    [/download-zip/{session}] exactly when some outcome is Converted, and
    it is the empty string when none is. *)
Theorem zipDownloadUrl_iff_converted env req w urls zip sizes w' :
  convert env req w = (Ok (RespConvert urls zip sizes), w') ->
  (zip = "/download-zip/" +:+ sessionId_of env req
   <-> exists f, f ∈ sizes /\ status_of f = Converted)
  /\ (~ (exists f, f ∈ sizes /\ status_of f = Converted) -> zip = "").
Proof.
  intros Hrun. apply convert_inv in Hrun as (l & w0 & _ & _ & _ & _ & _ & -> & ->).
  split; [split |].
  - intros Hzip.
    destruct (converted_or_not (fileSizes w')) as [Hex | Hno]; [exact Hex |].
    apply forallb_not_converted in Hno.
    rewrite (zipDownloadUrl_of_none _ _ Hno) in Hzip. discriminate Hzip.
  - apply zipDownloadUrl_of_converted.
  - apply zipDownloadUrl_of_none.
Qed.

Lemma zipDownloadUrl_iff_converted_witness :
  let env := Demo.env (Demo.table [(70, 400000)]) Demo.no_refusal in
  let req := Demo.request (Demo.jpeg 1000000) in
  let sizes := [mkFileSize "photo.jpg" 1000000 400000 None None None] in
  ("/download-zip/s1" = "/download-zip/" +:+ sessionId_of env req
   <-> exists f, f ∈ sizes /\ status_of f = Converted)
  /\ (~ (exists f, f ∈ sizes /\ status_of f = Converted)
      -> "/download-zip/s1" = "").
Proof.
  intros env req sizes.
  apply (zipDownloadUrl_iff_converted env req (Demo.world 1000000)
           ["/download/s1/photo.webp"] "/download-zip/s1" sizes
           (snd (convert env req (Demo.world 1000000)))).
  vm_compute; reflexivity.
Defined.

(** ** The archive route *)

(** C5 does not hold of the code: the archive of a session whose
    directory is absent.  [readdir] rejects with ENOENT, the [catch] of
    line 101 takes it and the answer is 500.  The routes beside it answer
    404: the same route for a directory that is there and empty, the
    single-file route for a path that is absent. *)
Theorem absent_session_is_server_error :
  let env := Demo.zip_env (fun _ => Ok 4096) (fun _ => Sent) in
  node_at (resolve env "/srv/app/public/s2") (files Demo.served) = None
  /\ fst (download_zip env "s2" Demo.served)
     = Ok (RespError 500
             "Failed to create ZIP: ENOENT: no such file or directory, scandir '/srv/app/public/s2'")
  /\ fst (download_zip env "s1" Demo.empty_session)
     = Ok (RespError 404 "No files available to zip")
  /\ fst (download_file env "s2" "photo.webp" Demo.served)
     = Ok (RespError 404 "File not found").
Proof. vm_compute. repeat split; reflexivity. Qed.

(** C6 does not hold of the code: a session with one file, and an
    archiver that emits an error.  [zipPromise] rejects, the [catch] of
    line 101 answers 500, and no [unlink] is called: the transient file
    that the write stream created stays under [public/]. *)
Theorem archiver_error_leaves_archive :
  let env := Demo.zip_env (fun _ => Throw Demo.queue_closed) (fun _ => Sent) in
  let (response, w') := download_zip env "s1" Demo.served in
  response = Ok (RespError 500 "Failed to create ZIP: queue closed")
  /\ lookup_file env "/srv/app/public/s1.zip" (files w') = Some 0
  /\ trace w' = [EvError "ZIP creation error: queue closed";
                 EvError "Archiver error: queue closed"].
Proof. vm_compute. repeat split; reflexivity. Qed.

(** ** Scenarios of the specification, run on the model

    A: a JPEG of 1,000,000 bytes that encodes to 400,000 bytes at quality
    70 is Converted.  B: a WebP of 2,000 bytes whose encodes at 50, 30,
    10 and 20 never come out smaller is Skipped, after four encodes (the
    trace lists the latest event first).  F: the archive of an empty
    session is a 404. *)
Lemma scenario_A :
  fst (convert (Demo.env (Demo.table [(70, 400000)]) Demo.no_refusal)
         (Demo.request (Demo.jpeg 1000000)) (Demo.world 1000000))
  = Ok (RespConvert ["/download/s1/photo.webp"] "/download-zip/s1"
          [mkFileSize "photo.jpg" 1000000 400000 None None None]).
Proof. vm_compute. reflexivity. Qed.

Lemma scenario_B :
  let env :=
    Demo.env (Demo.table [(50, 2100); (30, 2050); (10, 2000); (20, 2000)])
      Demo.no_refusal in
  let output := "/srv/app/public/s1/photo.webp" in
  let (response, w') :=
    convert env (Demo.request (Demo.webp 2000)) (Demo.world 2000) in
  response
  = Ok (RespConvert [""] ""
          [mkFileSize "photo.webp" 2000 2000 (Some true) None None])
  /\ trace w' =
     [EvUnlink "uploads/tmp1" true;
      EvUnlink output true;
      EvEncode "uploads/tmp1" 20 output;
      EvEncode "uploads/tmp1" 10 output;
      EvUnlink output true;
      EvEncode "uploads/tmp1" 30 output;
      EvUnlink output true;
      EvEncode "uploads/tmp1" 50 output]
  /\ lookup_file env output (files w') = None.
Proof. vm_compute. repeat split; reflexivity. Qed.

Lemma scenario_F :
  fst (download_zip (Demo.zip_env (fun _ => Ok 4096) (fun _ => Sent)) "s1"
         Demo.empty_session)
  = Ok (RespError 404 "No files available to zip").
Proof. vm_compute. reflexivity. Qed.

(** * Further properties *)

(** ** Traces *)

Lemma added_refl w P : added w w P.
Proof. exists []. split; [reflexivity | constructor]. Qed.

Lemma added_trans w1 w2 w3 P :
  added w1 w2 P -> added w2 w3 P -> added w1 w3 P.
Proof.
  intros (e1 & H1 & F1) (e2 & H2 & F2). exists (e2 ++ e1).
  split; [rewrite H2, H1, app_assoc; reflexivity | apply Forall_app; auto].
Qed.

Lemma added_impl w w' (P Q : Event -> Prop) :
  (forall e, P e -> Q e) -> added w w' P -> added w w' Q.
Proof.
  intros HPQ (evs & H & F). exists evs. split; [exact H |].
  eapply Forall_impl; eassumption.
Qed.

Lemma added_unlink env s w P :
  (forall ok, P (EvUnlink s ok)) -> added w (snd (unlink env s w)) P.
Proof.
  intros HP. unfold unlink. destruct (refuse env _); simpl;
    [exists [EvUnlink s false]; split; [reflexivity | repeat constructor; apply HP] |].
  destruct (find env s (files w)); simpl;
    eexists [_]; (split; [reflexivity | repeat constructor; apply HP]).
Qed.

Lemma added_sharp env i q o w P :
  P (EvEncode i q o) -> added w (snd (sharp_webp_toFile env i q o w)) P.
Proof.
  intros HP. exists [EvEncode i q o]. split; [apply sharp_trace |].
  repeat constructor. exact HP.
Qed.

Lemma added_attempt env i o orig q a w P :
  P (EvEncode i q o) -> (forall ok, P (EvUnlink o ok)) ->
  added w (snd (attempt env i o orig q a w)) P.
Proof.
  intros HP HU. unfold attempt, bind at 1.
  pose proof (added_sharp env i q o w P HP) as Hs.
  destruct (sharp_webp_toFile env i q o w) as [[[] | e] w1]; cbn [snd] in *;
    [| exact Hs].
  unfold bind at 1.
  destruct (stat env o w1) as [[size | e] w2] eqn:Hst;
    pose proof (stat_inv _ _ _ _ _ Hst) as ->; [| exact Hs].
  destruct (_ && _).
  - unfold bind, ret. pose proof (added_unlink env o w1 P HU) as Hu.
    destruct (unlink env o w1) as [[[] | e] w3]; cbn [snd] in *;
      eapply added_trans; eassumption.
  - destruct (size <? 512); exact Hs.
Qed.

Lemma added_search env i o orig q a w :
  added w (snd (search env i o orig q a w)) (steps_down q a).
Proof.
  funelim (search env i o orig q a w); cbn [snd];
    match goal with
    | Hat : attempt ?e ?i ?o ?orig ?q ?a ?w = _ |- _ =>
        assert (added w (snd (attempt e i o orig q a w)) (steps_down q a)) as Hk
          by (apply added_attempt; [exists 0; lia | intros; exact I]);
        rewrite Hat in Hk; cbn [snd] in Hk
    end; try exact Hk.
  eapply added_trans; [exact Hk |].
  eapply added_impl; [| eassumption].
  intros [? q' ? | | |]; simpl; auto.
  intros (k & Hk1 & ->). exists (k + 1). unfold maxAttempts in *. lia.
Qed.

(** ** More on [optimizeWebP] *)

(** X2.  When the first encode comes out at 512 bytes or more and below
    the original size, it is the only encode: [optimizeWebP] returns its
    size, and nothing else is done to the disk. *)
Theorem first_pass_accepted env i o orig (isWebP : bool) w w1 size :
  sharp_webp_toFile env i (if isWebP then 50 else 70) o w = (Ok tt, w1) ->
  stat env o w1 = (Ok size, w1) ->
  512 <= size -> size < orig ->
  optimizeWebP env i o orig isWebP w = (Ok size, w1)
  /\ trace w1 = EvEncode i (if isWebP then 50 else 70) o :: trace w.
Proof.
  intros Hs Hst Hfloor Hlt. split.
  - rewrite optimizeWebP_unfold, search_step. unfold first_quality.
    rewrite (attempt_not_retried env i o orig _ 0 w w1 size Hs Hst)
      by (unfold retried; lia).
    replace (size <? 512) with false by (symmetry; apply Z.ltb_ge; lia).
    replace (size >=? orig) with false
      by (symmetry; rewrite Z.geb_leb; apply Z.leb_gt; lia).
    reflexivity.
  - pose proof (sharp_trace env i (if isWebP then 50 else 70) o w) as Ht.
    rewrite Hs in Ht. exact Ht.
Qed.

Lemma first_pass_accepted_witness :
  let env := Demo.env (Demo.table [(70, 400000)]) Demo.no_refusal in
  let input := "uploads/tmp1" in
  let output := "/srv/app/public/s1/photo.webp" in
  let w := Demo.ready 1000000 in
  let w1 := snd (sharp_webp_toFile env input 70 output w) in
  optimizeWebP env input output 1000000 false w = (Ok 400000, w1)
  /\ trace w1 = EvEncode input 70 output :: trace w.
Proof.
  intros env input output w w1.
  apply (first_pass_accepted env input output 1000000 false w w1 400000).
  - vm_compute; reflexivity.
  - vm_compute; reflexivity.
  - vm_compute; discriminate.
  - reflexivity.
Defined.

(** X3.  A fault of the encoder is not retried: when [sharp] rejects in
    a pass of the loop, [optimizeWebP] rejects with the same error, no
    further encode is made and the disk is as that pass found it. *)
Theorem codec_fault_is_not_retried env i o orig isWebP w q a w1 e w2 :
  pass_of env i o orig isWebP w q a w1 ->
  sharp_webp_toFile env i q o w1 = (Throw e, w2) ->
  optimizeWebP env i o orig isWebP w = (Throw e, w2)
  /\ trace w2 = EvEncode i q o :: trace w1
  /\ files w2 = files w1.
Proof.
  intros Hpass Hs. split; [| split].
  - rewrite optimizeWebP_unfold, (pass_search _ _ _ _ _ _ _ _ _ Hpass),
      search_step.
    unfold attempt, bind at 1. rewrite Hs. reflexivity.
  - pose proof (sharp_trace env i q o w1) as Ht. rewrite Hs in Ht. exact Ht.
  - revert Hs. unfold sharp_webp_toFile.
    destruct (decide _); [intros [= _ <-]; reflexivity |].
    destruct (find env i (files w1)); try (intros [= _ <-]; reflexivity).
    destruct (codec env i q); [| intros [= _ <-]; reflexivity].
    destruct (write_file _ _ _ _); [intros [= _ <-]; reflexivity | discriminate].
Qed.

Lemma codec_fault_is_not_retried_witness :
  let env := Cases.env Demo.no_refusal in
  let input := "uploads/tmp2" in
  let output := "/srv/app/public/s1/icon.webp" in
  let w := mkWorld (Demo.disk_of ["public/s1"] [("uploads/tmp2", 2000)]) [] [] [] in
  let e := mkError None "Input buffer contains unsupported image format" in
  let w2 := snd (sharp_webp_toFile env input 70 output w) in
  optimizeWebP env input output 2000 false w = (Throw e, w2)
  /\ trace w2 = EvEncode input 70 output :: trace w
  /\ files w2 = files w.
Proof.
  intros env input output w e w2.
  apply (codec_fault_is_not_retried env input output 2000 false w 70 0 w e w2).
  - apply (pass_first env input output 2000 false w).
  - vm_compute; reflexivity.
Defined.

(** X4.  The encoder is only ever called with the qualities 70, 50, 30
    and 20 for a source that is not WebP, and 50, 30, 10 and 20 for one
    that is. *)
Theorem encode_qualities env i o orig isWebP w :
  added w (snd (optimizeWebP env i o orig isWebP w))
    (encodes_at (if isWebP then [50; 30; 10; 20] else [70; 50; 30; 20])).
Proof.
  rewrite optimizeWebP_unfold.
  pose proof (added_search env i o orig (first_quality isWebP) 0 w) as Hs.
  assert (forall e, steps_down (first_quality isWebP) 0 e ->
                    encodes_at (if isWebP then [50; 30; 10; 20]
                                else [70; 50; 30; 20]) e) as Himp.
  { intros [? q' ? | | |]; simpl; auto. intros (k & Hk & ->).
    assert (k = 0 \/ k = 1 \/ k = 2) as Hcase by lia. clear Hk.
    destruct Hcase as [-> | [-> | ->]]; destruct isWebP; simpl; set_solver. }
  apply (added_impl _ _ _ _ Himp) in Hs.
  destruct (search _ _ _ _ _ _ _) as [[[size a'] | e] w1]; cbn [snd] in Hs;
    [| exact Hs].
  destruct (size >=? orig); [| exact Hs].
  eapply added_trans; [exact Hs |].
  exists [EvEncode i 20 o]. split; [apply fallback_trace |].
  repeat constructor. destruct isWebP; simpl; set_solver.
Qed.

(** X5.  The size that [optimizeWebP] returns is the size of the output
    on disk.  Either it is at least 512 bytes and below the original
    size, after at most three encodes, or the last thing done was the
    fallback encode at quality 20: a returned size below 512 bytes, or
    not below the original, can only come from the fallback. *)
Theorem result_is_sound_or_fallback env i o orig isWebP w size w' :
  optimizeWebP env i o orig isWebP w = (Ok size, w') ->
  lookup_file env o (files w') = Some size
  /\ ((512 <= size /\ size < orig
       /\ (encodes (trace w') <= encodes (trace w) + 3)%nat)
      \/ exists w1, trace w' = EvEncode i 20 o :: trace w1).
Proof.
  intros Hrun. split.
  { apply optimizeWebP_ok_inv in Hrun as [_ Hl]. exact Hl. }
  revert Hrun. rewrite optimizeWebP_unfold.
  pose proof (search_encodes env i o orig (first_quality isWebP) 0 w) as Henc.
  destruct (search _ _ _ _ _ _ _) as [[[s a'] | e] w1] eqn:Hs; [| discriminate].
  cbn [snd] in Henc.
  change (Z.to_nat (Z.max 1 (maxAttempts - 0))) with 3%nat in Henc.
  destruct (s >=? orig) eqn:Hge.
  - intros Hfb. right. exists w1.
    pose proof (fallback_trace env i o w1) as Ht. rewrite Hfb in Ht. exact Ht.
  - intros [= <- <-]. left.
    rewrite Z.geb_leb in Hge. apply Z.leb_gt in Hge.
    apply search_ok_inv in Hs as [(_ & _ & Hfloor & _) | (_ & Hbig)];
      [| lia | reflexivity].
    repeat split; assumption.
Qed.

Lemma result_is_sound_or_fallback_witness :
  let env := Demo.env (Demo.table [(70, 400000)]) Demo.no_refusal in
  let input := "uploads/tmp1" in
  let output := "/srv/app/public/s1/photo.webp" in
  let w := Demo.ready 1000000 in
  let w' := snd (optimizeWebP env input output 1000000 false w) in
  lookup_file env output (files w') = Some 400000
  /\ ((512 <= 400000 /\ 400000 < 1000000
       /\ (encodes (trace w') <= encodes (trace w) + 3)%nat)
      \/ exists w1, trace w' = EvEncode input 20 output :: trace w1).
Proof.
  intros env input output w w'.
  apply (result_is_sound_or_fallback env input output 1000000 false w 400000 w').
  vm_compute; reflexivity.
Defined.

(** X6.  [optimizeWebP] writes and unlinks at the location of its output
    only: every other location, that of the upload among them, holds
    what it held, and [unlink] is never called on it. *)
Theorem transcoder_touches_output_only env i o orig isWebP w p :
  p <> resolve env o ->
  let w' := snd (optimizeWebP env i o orig isWebP w) in
  node_at p (files w') = node_at p (files w)
  /\ unlink_calls env p (trace w') = unlink_calls env p (trace w).
Proof.
  intros Hne w'. split.
  - apply (keeps_node_optimizeWebP env i o orig isWebP p (not_eq_sym Hne) w).
  - apply (calls_optimizeWebP env i o orig isWebP p (not_eq_sym Hne) w).
Qed.

Lemma transcoder_touches_output_only_witness :
  let env := Demo.env (Demo.table [(70, 2000); (50, 300)]) Demo.no_refusal in
  let input := "uploads/tmp1" in
  let output := "/srv/app/public/s1/photo.webp" in
  let w := Demo.ready 1000 in
  let w' := snd (optimizeWebP env input output 1000 false w) in
  node_at (resolve env input) (files w') = node_at (resolve env input) (files w)
  /\ unlink_calls env (resolve env input) (trace w')
     = unlink_calls env (resolve env input) (trace w).
Proof.
  intros env input output w w'.
  apply (transcoder_touches_output_only env input output 1000 false w
           (resolve env input)).
  vm_compute; discriminate.
Defined.

(** ** What the loop body leaves on disk *)

Section OnDisk.

Context {X : Type} (g : FileSystem -> X).

Lemma disk_emit e : preserves (on_disk g) (emit e).
Proof. intros w; reflexivity. Qed.

Lemma disk_push_fileSizes f : preserves (on_disk g) (push_fileSizes f).
Proof. intros w; reflexivity. Qed.

Lemma disk_push_downloadUrls u : preserves (on_disk g) (push_downloadUrls u).
Proof. intros w; reflexivity. Qed.

Lemma disk_new_arrays : preserves (on_disk g) new_arrays.
Proof. intros w; reflexivity. Qed.

Lemma disk_for_of {A} (l : list A) (body : A -> M unit) :
  (forall x, x ∈ l -> preserves (on_disk g) (body x)) ->
  preserves (on_disk g) (for_of l body).
Proof.
  induction l as [| x l IH]; intros Hbody; simpl.
  - apply preserves_ret.
  - apply preserves_bind; [apply Hbody; left |].
    intros _. apply IH. intros y Hy. apply Hbody. right. exact Hy.
Qed.

Variables (env : Env) (sessionId : string) (file : File.t).

Hypothesis g_sharp :
  forall q, preserves (on_disk g)
              (sharp_webp_toFile env (File.path file) q
                 (outputPath_of env sessionId file)).
Hypothesis g_unlink_output :
  preserves (on_disk g) (unlink env (outputPath_of env sessionId file)).
Hypothesis g_unlink_upload :
  preserves (on_disk g) (unlink env (File.path file)).

Lemma disk_convert_catch err : preserves (on_disk g) (convert_catch env file err).
Proof.
  unfold convert_catch, console_error.
  apply preserves_bind; [apply disk_emit | intros _].
  apply preserves_bind; [apply disk_push_fileSizes | intros _].
  apply preserves_bind; [apply disk_push_downloadUrls | intros _].
  apply preserves_try_catch; [apply g_unlink_upload |].
  intros e. apply disk_emit.
Qed.

Lemma disk_convert_try : preserves (on_disk g) (convert_try env sessionId file).
Proof.
  unfold convert_try. fold (outputPath_of env sessionId file).
  apply preserves_bind; [apply preserves_stat | intros orig].
  apply preserves_bind;
    [apply preserves_optimizeWebP; [apply g_sharp | apply g_unlink_output] |].
  intros c. apply preserves_bind; [| intros _; apply g_unlink_upload].
  destruct (c >=? orig).
  - apply preserves_bind; [apply g_unlink_output | intros _].
    apply preserves_bind; [apply disk_push_fileSizes | intros _].
    apply disk_push_downloadUrls.
  - apply preserves_bind; [apply disk_push_fileSizes | intros _].
    apply disk_push_downloadUrls.
Qed.

Lemma disk_convert_file : preserves (on_disk g) (convert_file env sessionId file).
Proof.
  apply preserves_try_catch; [apply disk_convert_try |].
  intros e. apply disk_convert_catch.
Qed.

End OnDisk.

(** A location that is neither the upload nor the output of [file]. *)
Lemma other_file_kept env sid file p :
  p <> upload_at env file -> p <> output_at env sid file ->
  preserves (on_disk (node_at p)) (convert_file env sid file).
Proof.
  intros Hup Hout. apply disk_convert_file.
  - intros q w. apply sharp_node_ne. auto.
  - intros w. apply unlink_node_ne. auto.
  - intros w. apply unlink_node_ne. auto.
Qed.

(** The directories: nothing in the loop body makes or removes one. *)
Lemma is_dir_insert_file p q size fs :
  node_at q fs <> Some Dir ->
  is_dir p (<[q := File size]> fs) = is_dir p fs.
Proof.
  intros Hq. unfold is_dir. destruct (decide (q = p)) as [-> | Hne].
  - destruct p as [| n p]; [reflexivity |].
    rewrite node_at_insert_eq by discriminate.
    destruct (node_at (n :: p) fs) as [[|] |]; try reflexivity. contradiction.
  - rewrite node_at_insert_ne by exact Hne. reflexivity.
Qed.

Lemma is_dir_delete_file p q size fs :
  node_at q fs = Some (File size) -> is_dir p (delete q fs) = is_dir p fs.
Proof.
  intros Hq. unfold is_dir. destruct (decide (q = p)) as [-> | Hne].
  - destruct p as [| n p]; [reflexivity |].
    rewrite node_at_delete_eq by discriminate. rewrite Hq. reflexivity.
  - rewrite node_at_delete_ne by exact Hne. reflexivity.
Qed.

Lemma dirs_sharp env i q o p :
  preserves (on_disk (is_dir p)) (sharp_webp_toFile env i q o).
Proof.
  intros w. unfold sharp_webp_toFile, on_disk. destruct (decide _); [reflexivity |].
  destruct (find env i (files w)) as [original | |]; try reflexivity.
  destruct (codec env i q) as [size |]; [| reflexivity].
  destruct (write_file _ _ _ _) eqn:Hw; [reflexivity |].
  apply write_file_inv in Hw as (-> & _ & _ & _ & Hnd & _).
  simpl. apply is_dir_insert_file, Hnd.
Qed.

Lemma dirs_unlink env s p : preserves (on_disk (is_dir p)) (unlink env s).
Proof.
  intros w. unfold unlink, on_disk. destruct (refuse env _); [reflexivity |].
  destruct (find env s (files w)) as [size | |] eqn:Hf; try reflexivity.
  apply find_file_inv in Hf as (_ & _ & Hn & _).
  simpl. eapply is_dir_delete_file, Hn.
Qed.

Lemma dirs_convert_file env sid file p :
  preserves (on_disk (is_dir p)) (convert_file env sid file).
Proof.
  apply disk_convert_file;
    [intros q; apply dirs_sharp | apply dirs_unlink | apply dirs_unlink].
Qed.

(** The upload is gone when the loop body is through with it. *)
Lemma unlink_leaves_none env s w :
  refuse env (SysUnlink s) = None ->
  lookup_file env s (files (snd (unlink env s w))) = None.
Proof.
  intros Href. unfold unlink. rewrite Href.
  destruct (find env s (files w)) eqn:Hl; simpl;
    [apply lookup_remove_eq | |]; unfold lookup_file; rewrite Hl; reflexivity.
Qed.

Lemma convert_catch_removes_upload env file err w :
  refuse env (SysUnlink (File.path file)) = None ->
  lookup_file env (File.path file)
    (files (snd (convert_catch env file err w))) = None.
Proof.
  intros Href.
  unfold convert_catch, promise_catch, try_catch, console_error, emit, bind,
    push_fileSizes, push_downloadUrls.
  match goal with |- context [unlink ?e ?q ?w0] =>
    pose proof (unlink_leaves_none e q w0 Href) as Hk;
    destruct (unlink e q w0) as [[[] | e'] w1] end; exact Hk.
Qed.

Lemma convert_file_removes_upload env sid file w :
  refuse env (SysUnlink (File.path file)) = None ->
  lookup_file env (File.path file) (files (snd (convert_file env sid file w)))
  = None.
Proof.
  intros Href. unfold convert_file, try_catch.
  destruct (convert_try env sid file w) as [r w1] eqn:Htry.
  destruct (convert_try_cases env sid file w r w1 Href Htry)
    as [(-> & _ & _ & Hnone) | ((e & ->) & _ & _)].
  - exact Hnone.
  - apply convert_catch_removes_upload, Href.
Qed.

(** Without an upload the loop body leaves the disk as it is. *)
Lemma unlink_nothing env s w :
  lookup_file env s (files w) = None -> files (snd (unlink env s w)) = files w.
Proof.
  intros Hl. unfold unlink. destruct (refuse env _); [reflexivity |].
  unfold lookup_file in Hl. destruct (find env s (files w)); try reflexivity.
  discriminate.
Qed.

Lemma convert_file_without_upload env sid file w :
  lookup_file env (File.path file) (files w) = None ->
  files (snd (convert_file env sid file w)) = files w.
Proof.
  intros Hl.
  assert (forall e w1, files w1 = files w ->
            files (snd (convert_catch env file e w1)) = files w) as Hcatch.
  { intros e w1 Hw1.
    unfold convert_catch, promise_catch, try_catch, console_error, emit, bind,
      push_fileSizes, push_downloadUrls.
    match goal with |- context [unlink ?e ?q ?w0] =>
      pose proof (unlink_nothing e q w0) as Hk;
      destruct (unlink e q w0) as [[[] | e'] w2] end;
      cbn [snd files record] in *; rewrite Hk; auto; rewrite Hw1; exact Hl. }
  unfold convert_file, try_catch, convert_try, bind at 1.
  fold (outputPath_of env sid file).
  destruct (stat env (File.path file) w) as [[orig | e] w0] eqn:Hst;
    pose proof (stat_inv _ _ _ _ _ Hst) as ->; [| apply Hcatch; reflexivity].
  unfold bind at 1.
  destruct (optimizeWebP env _ _ orig _ w) as [[c | e] w1] eqn:Hopt.
  - apply optimizeWebP_ok_input in Hopt as (_ & original & Hup).
    rewrite Hl in Hup. discriminate.
  - apply Hcatch. revert Hopt. rewrite optimizeWebP_unfold, search_step.
    unfold attempt, bind at 1, sharp_webp_toFile.
    destruct (decide _); [intros [= _ <-]; reflexivity |].
    unfold lookup_file in Hl.
    destruct (find env (File.path file) (files w)); [discriminate | |];
      intros [= _ <-]; reflexivity.
Qed.

(** ** The ways through the loop body *)

Lemma convert_file_ways env sid file w :
  exists w' l,
    convert_file env sid file w = (Ok tt, w')
    /\ pushes w w' l /\ way env sid file w' l.
Proof.
  assert (forall e w1, convert_try env sid file w = (Throw e, w1) ->
            same_arrays w w1 ->
            exists w' l, convert_file env sid file w = (Ok tt, w')
              /\ pushes w w' l /\ way env sid file w' l) as Hfail.
  { intros e w1 Htry Hs. unfold convert_file, try_catch. rewrite Htry.
    destruct (convert_catch_pushes env file e w1) as (w' & Hc & Hp).
    exists w', [(failed_entry file (message e), "")].
    split; [exact Hc |]. split; [eapply pushes_same_l; eassumption |].
    constructor. }
  destruct (stat env (File.path file) w) as [r w0] eqn:Hst.
  pose proof (stat_inv _ _ _ _ _ Hst) as ->.
  destruct r as [orig | e].
  2: { apply (Hfail e w); [| apply same_arrays_refl].
       unfold convert_try, bind at 1. rewrite Hst. reflexivity. }
  destruct (optimizeWebP env (File.path file) (outputPath_of env sid file) orig
              (bool_decide (File.mimetype file = "image/webp")) w)
    as [[c | e] w1] eqn:Hopt.
  2: { apply (Hfail e w1).
       - apply (convert_try_throws env sid file w orig e w1 Hst Hopt).
       - pose proof (keeps_optimizeWebP env (File.path file)
                       (outputPath_of env sid file) orig
                       (bool_decide (File.mimetype file = "image/webp")) w) as Hk.
         rewrite Hopt in Hk. exact Hk. }
  pose proof (keeps_optimizeWebP env (File.path file)
                (outputPath_of env sid file) orig
                (bool_decide (File.mimetype file = "image/webp")) w) as Hk.
  rewrite Hopt in Hk. cbn [snd] in Hk.
  destruct (optimizeWebP_ok_input _ _ _ _ _ _ _ _ Hopt) as (Hio & _).
  assert (output_at env sid file <> upload_at env file) as Hne
    by (unfold output_at, upload_at; auto).
  destruct (convert_file_after env sid file w orig c w1 Hst Hopt) as [Hsk Hcv].
  destruct (Z_lt_dec c orig) as [Hlt | Hge].
  - destruct (Hcv Hlt) as (w2 & Hrun & Hp & Hkept).
    destruct (cleanup_tail env file w2 (output_at env sid file) Hne)
      as (w3 & l & Htail & Hp3 & Hshape & Hl).
    exists w3, ((converted_entry file orig c, download_url env sid file) :: l).
    split; [rewrite Hrun; exact Htail |].
    split; [exact (pushes_app _ _ _ [_] l Hp Hp3) |].
    constructor; [exact Hlt | | exact Hshape].
    rewrite (lookup_file_ext env _ (files w2) (files w3) Hl). exact Hkept.
  - pose proof (convert_try_after env sid file w orig c w1 Hst Hopt) as Htry.
    replace (c >=? orig) with true in Htry
      by (symmetry; rewrite Z.geb_leb; apply Z.leb_le; lia).
    pose proof (keeps_unlink env (outputPath_of env sid file) w1) as Hu.
    destruct (unlink env (outputPath_of env sid file) w1) as [[[] | e] w2] eqn:Hul.
    + pose proof (unlink_ok_inv _ _ _ _ Hul) as Hw2.
      assert (lookup_file env (outputPath_of env sid file) (files w2) = None)
        as Hgone by (rewrite Hw2; apply lookup_remove_eq).
      cbn [snd] in Hu.
      set (w3 := mkWorld (files w2) (trace w2)
                   (fileSizes w2 ++ [skipped_entry file orig])
                   (downloadUrls w2 ++ [""])).
      assert (convert_file env sid file w
              = try_catch (unlink env (File.path file)) (convert_catch env file) w3)
        as Hrun.
      { unfold convert_file, try_catch at 1. rewrite Htry.
        unfold bind at 1. unfold bind at 1. rewrite Hul. reflexivity. }
      destruct (cleanup_tail env file w3 (output_at env sid file) Hne)
        as (w4 & l & Htail & Hp4 & Hshape & Hl).
      exists w4, ((skipped_entry file orig, "") :: l).
      split; [rewrite Hrun; exact Htail |].
      split.
      * apply (pushes_app _ w3 _ [_] l); [| exact Hp4].
        destruct Hk as [Hk1 Hk2], Hu as [Hu1 Hu2].
        split; cbn; [rewrite Hu1, Hk1 | rewrite Hu2, Hk2]; reflexivity.
      * constructor; [| exact Hshape].
        rewrite (lookup_file_ext env _ (files w3) (files w4) Hl). exact Hgone.
    + apply (Hfail e w2).
      * rewrite Htry. unfold bind at 1. unfold bind at 1.
        rewrite Hul. reflexivity.
      * cbn [snd] in Hu. eapply same_arrays_trans; eassumption.
Qed.

Lemma for_of_ways env sid l :
  NoDup (map (output_at env sid) l) ->
  apart env sid l ->
  forall w,
  exists w' ls,
    for_of l (convert_file env sid) w = (Ok tt, w')
    /\ pushes w w' (concat ls)
    /\ Forall2 (fun file pl => way env sid file w' pl) l ls.
Proof.
  induction l as [| file l IH]; intros Hnd Hapart w; simpl.
  - exists w, []. split; [reflexivity |]. split; [| constructor].
    apply pushes_nil, same_arrays_refl.
  - apply NoDup_cons in Hnd as [Hnotin Hnd].
    assert (apart env sid l) as Hapart'
      by (intros f g Hf Hg; apply Hapart; right; assumption).
    destruct (convert_file_ways env sid file w) as (w1 & pl & Hrun & Hp & Hway).
    destruct (IH Hnd Hapart' w1) as (w' & ls & Hrun' & Hp' & Hall).
    exists w', (pl :: ls). unfold bind. rewrite Hrun.
    split; [exact Hrun' |]. split; [simpl; eapply pushes_app; eassumption |].
    constructor; [| exact Hall].
    assert (lookup_file env (outputPath_of env sid file) (files w')
            = lookup_file env (outputPath_of env sid file) (files w1)) as Hsame.
    { apply lookup_file_ext.
      assert (preserves (on_disk (node_at (output_at env sid file)))
                (for_of l (convert_file env sid))) as Hfor.
      { apply disk_for_of. intros file' Hin. apply other_file_kept.
        - intros Heq. apply (Hapart file' file); [right; exact Hin | left |].
          symmetry. exact Heq.
        - intros Heq. apply Hnotin. rewrite Heq.
          apply list_elem_of_fmap_2. exact Hin. }
      specialize (Hfor w1). rewrite Hrun' in Hfor. exact Hfor. }
    destruct Hway; constructor; auto; rewrite Hsame; assumption.
Qed.

Lemma way_converted_kept env sid file w' pl pair :
  way env sid file w' pl -> pair ∈ pl -> status_of pair.1 = Converted ->
  pair.2 = download_url env sid file
  /\ originalName pair.1 = File.originalname file
  /\ convertedSize pair.1 < originalSize pair.1
  /\ lookup_file env (outputPath_of env sid file) (files w')
     = Some (convertedSize pair.1).
Proof.
  assert (forall rest,
            rest = [] \/ (exists msg, rest = [(failed_entry file msg, "")]) ->
            pair ∈ rest -> status_of pair.1 = Converted -> False) as Hrest.
  { intros rest [-> | (msg & ->)] Hin Hst; [inversion Hin |].
    apply list_elem_of_singleton in Hin. subst pair. discriminate Hst. }
  destruct 1 as [msg | o rest Hgone Hr | o c rest Hlt Hkept Hr];
    intros Hin Hst.
  - apply list_elem_of_singleton in Hin. subst pair. discriminate Hst.
  - apply elem_of_cons in Hin as [-> | Hin]; [discriminate Hst |].
    exfalso. eauto.
  - apply elem_of_cons in Hin as [-> | Hin]; [| exfalso; eauto].
    simpl. auto.
Qed.

(** ** Directories on the way *)

Lemma elem_of_dirs_below here names q :
  q ∈ dirs_below here names
  <-> exists k, k <> [] /\ k `prefix_of` names /\ q = here ++ k.
Proof.
  revert here. induction names as [| n names IH]; intros here; simpl.
  - split; [intros Hin; inversion Hin |].
    intros (k & Hk & Hpre & _). apply prefix_nil_inv in Hpre. contradiction.
  - rewrite elem_of_cons, IH. split.
    + intros [-> | (k & Hk & Hpre & ->)].
      * exists [n]. split; [discriminate |].
        split; [apply prefix_cons, prefix_nil | reflexivity].
      * exists (n :: k). split; [discriminate |].
        split; [apply prefix_cons, Hpre |]. rewrite <- app_assoc. reflexivity.
    + intros (k & Hk & Hpre & ->). destruct k as [| m k]; [contradiction |].
      pose proof (prefix_cons_inv_1 _ _ _ _ Hpre) as ->.
      apply prefix_cons_inv_2 in Hpre.
      destruct k as [| m' k]; [left; reflexivity |].
      right. exists (m' :: k). split; [discriminate |].
      split; [exact Hpre |]. rewrite <- app_assoc. reflexivity.
Qed.

Lemma elem_of_below p q : q ∈ below p <-> q <> [] /\ q `prefix_of` p.
Proof.
  unfold below. rewrite elem_of_dirs_below. split.
  - intros (k & Hk & Hpre & ->). auto.
  - intros [Hq Hpre]. exists q. auto.
Qed.

Lemma lookup_dirs (L : list Location) (fs : FileSystem) q :
  foldr (fun q fs => <[q := Dir]> fs) fs L !! q
  = if decide (q ∈ L) then Some Dir else fs !! q.
Proof.
  induction L as [| a L IH]; simpl.
  - destruct (decide (q ∈ [])) as [Hin |]; [inversion Hin | reflexivity].
  - destruct (decide (a = q)) as [-> | Hne].
    + rewrite lookup_insert_eq.
      destruct (decide (q ∈ q :: L)) as [| Hn]; [reflexivity |].
      exfalso. apply Hn. left.
    + rewrite lookup_insert_ne by exact Hne. rewrite IH.
      destruct (decide (q ∈ L)) as [Hin | Hn], (decide (q ∈ a :: L)) as [Hin' | Hn'];
        try reflexivity.
      * exfalso. apply Hn'. right. exact Hin.
      * exfalso. apply elem_of_cons in Hin' as [-> | Hin']; auto.
Qed.

Lemma node_at_make_dirs p fs q :
  node_at q (make_dirs p fs)
  = if decide (q `prefix_of` p) then Some Dir else node_at q fs.
Proof.
  destruct q as [| n q].
  - simpl. destruct (decide ([] `prefix_of` p)) as [| Hn]; [reflexivity |].
    exfalso. apply Hn, prefix_nil.
  - unfold make_dirs. cbn [node_at]. rewrite lookup_dirs.
    destruct (decide (n :: q `prefix_of` p)) as [Hpre | Hnp];
      case_decide as Hin; try reflexivity.
    + exfalso. apply Hin, elem_of_below. split; [discriminate | exact Hpre].
    + apply elem_of_below in Hin as [_ Hpre]. contradiction.
Qed.

Lemma prefix_parent (p q : Location) :
  q `prefix_of` p -> q <> p -> q `prefix_of` parent p.
Proof.
  intros [k ->] Hne. destruct k as [| n k].
  - rewrite app_nil_r in Hne. contradiction.
  - unfold parent. rewrite removelast_app by discriminate.
    apply prefix_app_r. reflexivity.
Qed.

Lemma not_held fs q : held_by_file fs q = false <-> file_at q fs = None.
Proof.
  unfold held_by_file, file_at. destruct (node_at q fs) as [[|] |];
    split; congruence.
Qed.

(** ** [ensureDir] *)

Lemma mkdir_ok_inv env dir w w' :
  mkdir_recursive env dir w = (Ok tt, w') ->
  w' = with_files (make_dirs (resolve env dir) (files w)) w
  /\ forall q, q `prefix_of` resolve env dir -> file_at q (files w) = None.
Proof.
  unfold mkdir_recursive. destruct (refuse env _); [discriminate |].
  destruct (String.eqb dir ""); [discriminate |].
  destruct (existsb _ _) eqn:Hanc; [discriminate |].
  assert (file_at (resolve env dir) (files w) = None
          -> forall q, q `prefix_of` resolve env dir -> file_at q (files w) = None)
    as Hall.
  { intros Hp q Hpre. destruct (decide (q = resolve env dir)) as [-> | Hne];
      [exact Hp |].
    destruct q as [| n q]; [reflexivity |].
    apply not_held. rewrite <- not_true_iff_false. intros Hheld.
    apply not_true_iff_false in Hanc. apply Hanc.
    apply existsb_exists. exists (n :: q). split; [| exact Hheld].
    apply list_elem_of_In, elem_of_below. split; [discriminate |].
    apply prefix_parent; assumption. }
  destruct (node_at (resolve env dir) (files w)) as [[size |] |] eqn:Hn;
    [discriminate | |]; intros [= <-]; (split; [reflexivity |]);
    apply Hall; unfold file_at; rewrite Hn; reflexivity.
Qed.

Lemma mkdir_throw_inv env dir w e w' :
  mkdir_recursive env dir w = (Throw e, w') -> w' = w.
Proof.
  unfold mkdir_recursive. destruct (refuse env _); [congruence |].
  destruct (String.eqb dir ""); [congruence |].
  destruct (existsb _ _); [congruence |].
  destruct (node_at _ _) as [[|] |]; congruence.
Qed.

Lemma ensureDir_throw_inv env dir w e w0 :
  ensureDir env dir w = (Throw e, w0) -> w0 = w.
Proof.
  unfold ensureDir, try_catch.
  destruct (mkdir_recursive env dir w) as [[[] | err] w1] eqn:Hmk; [discriminate |].
  apply mkdir_throw_inv in Hmk as ->.
  destruct (decide _); [discriminate | intros [= _ <-]; reflexivity].
Qed.

Lemma ensureDir_node env dir w p :
  node_at p (files (snd (ensureDir env dir w))) = node_at p (files w)
  \/ (file_at p (files w) = None
      /\ node_at p (files (snd (ensureDir env dir w))) = Some Dir).
Proof.
  unfold ensureDir, try_catch.
  destruct (mkdir_recursive env dir w) as [[[] | err] w1] eqn:Hmk.
  - apply mkdir_ok_inv in Hmk as [-> Hfree]. cbn [snd files with_files].
    rewrite node_at_make_dirs.
    destruct (decide (p `prefix_of` resolve env dir)); [right | left]; auto.
  - apply mkdir_throw_inv in Hmk as ->. left.
    destruct (decide _); reflexivity.
Qed.

Lemma ensureDir_file env dir w p :
  file_at p (files (snd (ensureDir env dir w))) = file_at p (files w).
Proof.
  destruct (ensureDir_node env dir w p) as [Heq | [Hfree Hdir]];
    unfold file_at in *; [rewrite Heq; reflexivity |].
  rewrite Hdir. symmetry. exact Hfree.
Qed.

Lemma ensureDir_is_dir env dir w p :
  is_dir p (files w) = true ->
  is_dir p (files (snd (ensureDir env dir w))) = true.
Proof.
  intros Hd. destruct (ensureDir_node env dir w p) as [Heq | [_ Hdir]];
    unfold is_dir in *; [rewrite Heq; exact Hd | rewrite Hdir; reflexivity].
Qed.


(** ** More on [POST /convert] *)


Lemma batch_never_aborts_witness :
  let env := Cases.env Demo.uploads_busy in
  let w0 := snd (ensureDir env "/srv/app/public/s1" Cases.two_uploads) in
  exists w' ls,
    convert env Cases.batch Cases.two_uploads
    = (Ok (RespConvert (concat ls).*2
             (zipDownloadUrl_of (sessionId_of env Cases.batch) (concat ls).*1)
             (concat ls).*1), w')
    /\ Forall2 (fun file pl =>
                  pl <> []
                  /\ Forall (pushed_pair env (sessionId_of env Cases.batch) file) pl)
               [Cases.photo; Cases.icon] ls.
Proof.
  intros env w0.
  apply (batch_never_aborts env Cases.batch [Cases.photo; Cases.icon]
           Cases.two_uploads w0).
  - reflexivity.
  - discriminate.
  - vm_compute; reflexivity.
Defined.

Lemma one_outcome_per_file_witness :
  let env := Cases.env Demo.no_refusal in
  exists l,
    req_files Cases.batch = Some l
    /\ map originalName
         [mkFileSize "photo.jpg" 1000000 400000 None None None;
          mkFileSize "icon.png" 2000 2000 None (Some true)
            (Some "Input buffer contains unsupported image format")]
       = map File.originalname l
    /\ length ["/download/s1/photo.webp"; ""] = length l.
Proof.
  intros env.
  apply (one_outcome_per_file env Cases.batch Cases.two_uploads
           ["/download/s1/photo.webp"; ""] "/download-zip/s1" _
           (snd (convert env Cases.batch Cases.two_uploads))).
  - intros file _. reflexivity.
  - vm_compute; reflexivity.
Defined.

(** X10.  In every response the two arrays have the same length, a
    download URL is non-empty exactly at the indices of the Converted
    outcomes, and there it is [/download/{session}/{name}.webp]. *)
Theorem urls_align_with_outcomes env req w urls zip sizes w' :
  convert env req w = (Ok (RespConvert urls zip sizes), w') ->
  length urls = length sizes
  /\ forall i f url,
       sizes !! i = Some f -> urls !! i = Some url ->
       (url <> "" <-> status_of f = Converted)
       /\ (status_of f = Converted -> exists name,
             url = "/download/" +:+ sessionId_of env req +:+ "/" +:+ name +:+ ".webp").
Proof.
  intros Hrun.
  apply convert_outcomes in Hrun as (l & ls & Hl & Hall & -> & ->).
  split; [rewrite !length_fmap; reflexivity |].
  intros i f url Hf Hu.
  apply list_lookup_fmap_Some in Hf as (p & -> & Hp).
  rewrite list_lookup_fmap, Hp in Hu. injection Hu as <-.
  destruct (in_concat_pushed _ _ _ _ p Hall) as (file & Hin & Hpush).
  { eapply list_elem_of_lookup_2; eassumption. }
  destruct Hpush; simpl; (split; [split |]); try discriminate; try congruence;
    try reflexivity.
  intros _. eexists. unfold download_url, outputFilename_of. reflexivity.
Qed.

Lemma urls_align_with_outcomes_witness :
  let env := Demo.env (Demo.table [(70, 400000)]) Demo.no_refusal in
  let req := Demo.request (Demo.jpeg 1000000) in
  let urls := ["/download/s1/photo.webp"] in
  let sizes := [mkFileSize "photo.jpg" 1000000 400000 None None None] in
  length urls = length sizes
  /\ forall i f url,
       sizes !! i = Some f -> urls !! i = Some url ->
       (url <> "" <-> status_of f = Converted)
       /\ (status_of f = Converted -> exists name,
             url = "/download/" +:+ sessionId_of env req +:+ "/" +:+ name +:+ ".webp").
Proof.
  intros env req urls sizes.
  apply (urls_align_with_outcomes env req (Demo.world 1000000) urls
           "/download-zip/s1" sizes (snd (convert env req (Demo.world 1000000)))).
  vm_compute; reflexivity.
Defined.

(** ** The uploads of a batch *)

Lemma for_of_run env sid file l w w1 :
  convert_file env sid file w = (Ok tt, w1) ->
  for_of (file :: l) (convert_file env sid) w = for_of l (convert_file env sid) w1.
Proof. intros Hrun. simpl. unfold bind. rewrite Hrun. reflexivity. Qed.

(** A location that holds no file holds none after the loop, when no
    output is written there. *)
Lemma gone_stays env sid p l :
  (forall g, g ∈ l -> p <> output_at env sid g) ->
  forall w,
    file_at p (files w) = None ->
    file_at p (files (snd (for_of l (convert_file env sid) w))) = None.
Proof.
  induction l as [| g l IH]; intros Hout w Hgone; [exact Hgone |].
  destruct (convert_file_pushes env sid g w) as (w1 & pl & Hrun & _).
  rewrite (for_of_run env sid g l w w1 Hrun).
  apply IH; [intros g' Hg'; apply Hout; right; exact Hg' |].
  assert (w1 = snd (convert_file env sid g w)) as -> by (rewrite Hrun; reflexivity).
  destruct (decide (p = upload_at env g)) as [-> | Hne].
  - rewrite convert_file_without_upload; [exact Hgone |].
    rewrite lookup_file_node. destruct (_ || _); [reflexivity | exact Hgone].
  - pose proof (other_file_kept env sid g p Hne (Hout g ltac:(left)) w) as Hk.
    unfold on_disk in Hk. unfold file_at in *. rewrite Hk. exact Hgone.
Qed.

Lemma for_of_removes_uploads env sid l :
  (forall file, file ∈ l -> refuse env (SysUnlink (File.path file)) = None) ->
  apart env sid l ->
  forall w file,
    file ∈ l ->
    lookup_file env (File.path file)
      (files (snd (for_of l (convert_file env sid) w))) = None.
Proof.
  induction l as [| g l IH]; intros Href Hapart w file Hin; [inversion Hin |].
  destruct (convert_file_pushes env sid g w) as (w1 & pl & Hrun & _).
  rewrite (for_of_run env sid g l w w1 Hrun).
  apply elem_of_cons in Hin as [-> | Hl].
  2: { apply IH; [| | exact Hl].
       - intros f Hf. apply Href. right. exact Hf.
       - intros f f' Hf Hf'. apply Hapart; right; assumption. }
  pose proof (convert_file_removes_upload env sid g w (Href g ltac:(left)))
    as Hgone.
  rewrite Hrun in Hgone. cbn [snd] in Hgone. revert Hgone.
  rewrite !lookup_file_node. destruct (_ || _); [reflexivity |].
  apply gone_stays. intros g' Hg'. apply Hapart; [left | right; exact Hg'].
Qed.

(** X11.  Where the operating system refuses no deletion of an upload of
    the request, and no upload lies where the route writes an output, a
    batch that was answered has removed the upload of every file of the
    request, whatever the outcome of the file. *)
Theorem uploads_are_removed env req w urls zip sizes w' l file :
  req_files req = Some l ->
  (forall f, f ∈ l -> refuse env (SysUnlink (File.path f)) = None) ->
  apart env (sessionId_of env req) l ->
  convert env req w = (Ok (RespConvert urls zip sizes), w') ->
  file ∈ l ->
  lookup_file env (File.path file) (files w') = None.
Proof.
  intros Hl Href Hapart Hrun Hin.
  apply convert_inv in Hrun as (l' & w0 & Hl' & _ & Hdir & Hfor & _).
  rewrite Hl in Hl'. injection Hl' as <-.
  pose proof (for_of_removes_uploads env (sessionId_of env req) l Href Hapart
                (fresh_arrays w0) file Hin) as Hup.
  rewrite Hfor in Hup. exact Hup.
Qed.

Lemma uploads_are_removed_witness :
  let env := Demo.env (Demo.table [(70, 300)]) Demo.no_refusal in
  let req := Demo.request (Demo.jpeg 1000) in
  let w := Demo.world 1000 in
  lookup_file env "uploads/tmp1" (files (snd (convert env req w))) = None.
Proof.
  intros env req w.
  apply (uploads_are_removed env req w [""] ""
           [mkFileSize "photo.jpg" 1000 1000 None (Some true)
              (Some "Converted file size too small")]
           (snd (convert env req w)) [Demo.jpeg 1000] (Demo.jpeg 1000)).
  - reflexivity.
  - intros f _. reflexivity.
  - intros f g Hf Hg. apply list_elem_of_singleton in Hf, Hg. subst f g.
    vm_compute. discriminate.
  - vm_compute; reflexivity.
  - left.
Defined.

(** ** What a batch leaves alone *)

Lemma ensureDir_node_other env dir w p :
  ~ p `prefix_of` resolve env dir ->
  node_at p (files (snd (ensureDir env dir w))) = node_at p (files w).
Proof.
  intros Hnp. unfold ensureDir, try_catch.
  destruct (mkdir_recursive env dir w) as [[[] | err] w1] eqn:Hmk.
  - apply mkdir_ok_inv in Hmk as [-> _]. cbn [snd files with_files].
    rewrite node_at_make_dirs. case_decide; [contradiction | reflexivity].
  - apply mkdir_throw_inv in Hmk as ->. destruct (decide _); reflexivity.
Qed.

(** The disk after the route is the disk after [ensureDir], but for the
    uploads and the outputs. *)
Lemma convert_node env req w p :
  (forall file, file ∈ default [] (req_files req) ->
     p <> upload_at env file /\ p <> output_at env (sessionId_of env req) file) ->
  exists w0,
    (w0 = w
     \/ w0 = snd (ensureDir env (outputDir_of env (sessionId_of env req)) w))
    /\ node_at p (files (snd (convert env req w))) = node_at p (files w0).
Proof.
  intros Hother. unfold convert, try_catch.
  destruct (req_files req) as [l |]; [| exists w; split; [left |]; reflexivity].
  destruct l as [| file l]; [exists w; split; [left |]; reflexivity |].
  change ((length (file :: l) =? 0)%nat) with false. cbv iota.
  unfold bind at 1.
  destruct (ensureDir env _ w) as [[[] | e] w0] eqn:Hdir.
  2: { apply ensureDir_throw_inv in Hdir as ->.
       exists w. split; [left |]; reflexivity. }
  exists w0. split; [right; reflexivity |].
  unfold bind at 1, new_arrays at 1. unfold bind at 1.
  assert (preserves (on_disk (node_at p))
            (for_of (file :: l) (convert_file env (sessionId_of env req))))
    as Hfor.
  { apply disk_for_of. intros file' Hin.
    destruct (Hother file' Hin) as [Hup Hout].
    apply other_file_kept; assumption. }
  specialize (Hfor (fresh_arrays w0)). unfold on_disk in Hfor.
  destruct (for_of _ _ (fresh_arrays w0)) as [[[] | e] w1]; cbn [snd] in Hfor;
    exact Hfor.
Qed.

(** X12.  The route changes no regular file and removes no directory
    but at the locations of the uploads of the request and of the
    outputs it names for them: everywhere else a file is as before, the
    outputs of earlier batches among them, and a directory stays.  The
    only other change is that the session directory and the directories
    above it are made. *)
Theorem batch_touches_its_files_only env req w p :
  (forall file, file ∈ default [] (req_files req) ->
     p <> upload_at env file /\ p <> output_at env (sessionId_of env req) file) ->
  let w' := snd (convert env req w) in
  file_at p (files w') = file_at p (files w)
  /\ (is_dir p (files w) = true -> is_dir p (files w') = true)
  /\ (~ p `prefix_of` resolve env (outputDir_of env (sessionId_of env req)) ->
      node_at p (files w') = node_at p (files w)).
Proof.
  intros Hother w'. subst w'.
  destruct (convert_node env req w p Hother) as (w0 & [-> | ->] & Heq).
  - unfold file_at, is_dir. rewrite Heq. auto.
  - split; [| split].
    + unfold file_at. rewrite Heq. apply ensureDir_file.
    + intros Hd. unfold is_dir. rewrite Heq. apply ensureDir_is_dir, Hd.
    + intros Hnp. rewrite Heq. apply ensureDir_node_other, Hnp.
Qed.

Lemma batch_touches_its_files_only_witness :
  let env := Demo.env (Demo.table [(70, 400000)]) Demo.no_refusal in
  let req := mkRequest (Some "s1") (Some [Cases.icon]) in
  let p := resolve env "/srv/app/public/s1/photo.webp" in
  let w' := snd (convert env req Demo.served) in
  file_at p (files w') = file_at p (files Demo.served)
  /\ (is_dir p (files Demo.served) = true -> is_dir p (files w') = true)
  /\ (~ p `prefix_of` resolve env (outputDir_of env (sessionId_of env req)) ->
      node_at p (files w') = node_at p (files Demo.served)).
Proof.
  intros env req p.
  apply (batch_touches_its_files_only env req Demo.served p).
  intros file Hin. apply list_elem_of_singleton in Hin. subst file.
  split; vm_compute; discriminate.
Defined.

(** The locations are what counts.  With the session identifier
    [../uploads] the route writes its output into [uploads/], beside the
    uploads. *)
Lemma session_climbs_into_uploads :
  let env := Cases.env Demo.no_refusal in
  let (response, w') := convert env Cases.climbing Cases.two_uploads in
  response
  = Ok (RespConvert ["/download/../uploads/photo.webp"]
          "/download-zip/../uploads"
          [mkFileSize "photo.jpg" 1000000 400000 None None None])
  /\ lookup_file env "uploads/photo.webp" (files w') = Some 400000.
Proof. vm_compute. split; reflexivity. Qed.

(** ** The outputs of a batch *)

Lemma convert_ways env req w urls zip sizes w' l :
  req_files req = Some l ->
  NoDup (map (output_at env (sessionId_of env req)) l) ->
  apart env (sessionId_of env req) l ->
  convert env req w = (Ok (RespConvert urls zip sizes), w') ->
  exists ls,
    Forall2 (fun file pl => way env (sessionId_of env req) file w' pl) l ls
    /\ sizes = (concat ls).*1 /\ urls = (concat ls).*2.
Proof.
  intros Hl Hnd Hapart Hrun.
  apply convert_inv in Hrun as (l' & w0 & Hl' & _ & _ & Hfor & -> & -> & _).
  rewrite Hl in Hl'. injection Hl' as <-.
  destruct (for_of_ways env (sessionId_of env req) l Hnd Hapart (fresh_arrays w0))
    as (w2 & ls & Hfor' & [Hf Hd] & Hall).
  rewrite Hfor in Hfor'. injection Hfor' as <-.
  exists ls. simpl in Hf, Hd. auto.
Qed.

Lemma in_concat_way env sid w' l ls p :
  Forall2 (fun file pl => way env sid file w' pl) l ls ->
  p ∈ concat ls -> exists file pl, file ∈ l /\ way env sid file w' pl /\ p ∈ pl.
Proof.
  induction 1 as [| file pl l ls Hway _ IH]; simpl; intros Hin.
  - inversion Hin.
  - apply elem_of_app in Hin as [Hin | Hin].
    + exists file, pl. split; [left | auto].
    + destruct (IH Hin) as (f & pl' & ? & ? & ?).
      exists f, pl'. split; [right |]; auto.
Qed.

Lemma access_found env s w size :
  lookup_file env s (files w) = Some size ->
  refuse env (SysAccess s) = None ->
  access env s w = (Ok tt, w).
Proof.
  intros Hl Href. apply find_file in Hl. unfold access. rewrite Href, Hl.
  reflexivity.
Qed.

Lemma download_file_existing env session filename w size :
  let filePath := path_join env [__dirname env; "public"; session; filename] in
  lookup_file env filePath (files w) = Some size ->
  refuse env (SysAccess filePath) = None ->
  delivery env filePath = Sent ->
  download_file env session filename w
  = (Ok (RespDownload filePath filename), w).
Proof.
  intros filePath Hl Href Hdel.
  unfold download_file, try_catch, bind at 1. fold filePath.
  unfold bind at 1. rewrite (access_found env filePath w size Hl Href).
  unfold ret at 1. unfold download_file_callback, bind, res_download.
  apply find_file in Hl. rewrite Hl, Hdel. reflexivity.
Qed.

Lemma converted_output_kept env req w urls zip sizes w' l i f :
  req_files req = Some l ->
  NoDup (map (output_at env (sessionId_of env req)) l) ->
  apart env (sessionId_of env req) l ->
  convert env req w = (Ok (RespConvert urls zip sizes), w') ->
  sizes !! i = Some f ->
  status_of f = Converted ->
  exists file,
    file ∈ l
    /\ originalName f = File.originalname file
    /\ urls !! i = Some (download_url env (sessionId_of env req) file)
    /\ lookup_file env (outputPath_of env (sessionId_of env req) file) (files w')
       = Some (convertedSize f).
Proof.
  intros Hl Hnd Hapart Hrun Hi Hst.
  destruct (convert_ways env req w urls zip sizes w' l Hl Hnd Hapart Hrun)
    as (ls & Hall & -> & ->).
  apply list_lookup_fmap_Some in Hi as (p & -> & Hp).
  destruct (in_concat_way _ _ _ _ _ p Hall) as (file & pl & Hin & Hway & Hpl).
  { eapply list_elem_of_lookup_2; eassumption. }
  destruct (way_converted_kept _ _ _ _ _ _ Hway Hpl Hst)
    as (Hurl & Hname & _ & Hkept).
  exists file. split; [exact Hin |]. split; [exact Hname |].
  split; [rewrite list_lookup_fmap, Hp; simpl; rewrite Hurl; reflexivity |].
  exact Hkept.
Qed.

(** X13.  When the outputs of the files of a request lie at different
    locations, none of them that of an upload, every Converted outcome
    of the response points to a file that is on disk when the route
    answers, with the size the outcome reports, under the URL at the
    same index; the single-file route, when [path.join] gives it the
    same path from the same names, [access] is not refused and the
    delivery succeeds, sends that file. *)
Theorem converted_outputs_are_served env req w urls zip sizes w' l i f :
  req_files req = Some l ->
  NoDup (map (output_at env (sessionId_of env req)) l) ->
  apart env (sessionId_of env req) l ->
  convert env req w = (Ok (RespConvert urls zip sizes), w') ->
  sizes !! i = Some f ->
  status_of f = Converted ->
  exists file,
    let name := outputFilename_of env file in
    let output := outputPath_of env (sessionId_of env req) file in
    file ∈ l
    /\ originalName f = File.originalname file
    /\ urls !! i = Some ("/download/" +:+ sessionId_of env req +:+ "/" +:+ name)
    /\ lookup_file env output (files w') = Some (convertedSize f)
    /\ (path_join env [__dirname env; "public"; sessionId_of env req; name]
        = output ->
        refuse env (SysAccess output) = None ->
        delivery env output = Sent ->
        download_file env (sessionId_of env req) name w'
        = (Ok (RespDownload output name), w')).
Proof.
  intros Hl Hnd Hapart Hrun Hi Hst.
  destruct (converted_output_kept env req w urls zip sizes w' l i f
              Hl Hnd Hapart Hrun Hi Hst) as (file & Hin & Hname & Hurl & Hkept).
  exists file. cbn zeta. split; [exact Hin |]. split; [exact Hname |].
  split; [exact Hurl |]. split; [exact Hkept |].
  intros Hjoin Href Hdel.
  pose proof (download_file_existing env (sessionId_of env req)
                (outputFilename_of env file) w' (convertedSize f)) as Hserve.
  cbn zeta in Hserve. rewrite Hjoin in Hserve. auto.
Qed.

Lemma converted_outputs_are_served_witness :
  let env := Demo.env (Demo.table [(70, 400000)]) Demo.no_refusal in
  let req := Demo.request (Demo.jpeg 1000000) in
  let w' := snd (convert env req (Demo.world 1000000)) in
  let f := mkFileSize "photo.jpg" 1000000 400000 None None None in
  exists file,
    let name := outputFilename_of env file in
    let output := outputPath_of env (sessionId_of env req) file in
    file ∈ [Demo.jpeg 1000000]
    /\ originalName f = File.originalname file
    /\ ["/download/s1/photo.webp"] !! 0%nat
       = Some ("/download/" +:+ sessionId_of env req +:+ "/" +:+ name)
    /\ lookup_file env output (files w') = Some (convertedSize f)
    /\ (path_join env [__dirname env; "public"; sessionId_of env req; name]
        = output ->
        refuse env (SysAccess output) = None ->
        delivery env output = Sent ->
        download_file env (sessionId_of env req) name w'
        = (Ok (RespDownload output name), w')).
Proof.
  intros env req w' f.
  apply (converted_outputs_are_served env req (Demo.world 1000000)
           ["/download/s1/photo.webp"] "/download-zip/s1" [f] w'
           [Demo.jpeg 1000000] 0 f).
  - reflexivity.
  - vm_compute. repeat constructor. intros Hin. inversion Hin.
  - intros a b Ha Hb. apply list_elem_of_singleton in Ha, Hb. subst a b.
    vm_compute. discriminate.
  - vm_compute; reflexivity.
  - reflexivity.
  - reflexivity.
Defined.

(** ** What [readdir] lists *)

Lemma entries_elem (dir : Location) (fs : FileSystem) (name : string) node :
  fs !! (dir ++ [name]) = Some node -> name ∈ entries dir fs.
Proof.
  intros Hl. unfold entries. apply list_elem_of_omap.
  exists (dir ++ [name], node). split; [apply elem_of_map_to_list, Hl |].
  unfold entry_of. cbn [fst]. rewrite last_snoc.
  case_decide; [reflexivity | contradiction].
Qed.

Lemma inside_parent (dir q : Location) :
  inside dir q -> parent q = dir /\ q <> [].
Proof.
  intros [name ->]. split; [apply removelast_last |].
  destruct dir; discriminate.
Qed.

(** A file that lies directly in a directory is listed there. *)
Lemma listed env dir s fs size :
  inside (resolve env dir) (resolve env s) ->
  lookup_file env s fs = Some size ->
  exists name, name ∈ entries (resolve env dir) fs.
Proof.
  intros [name Hin] Hl. exists name.
  apply find_file, find_file_inv in Hl as (_ & _ & Hn & Hp).
  rewrite Hin in Hn. destruct (resolve env dir ++ [name]) eqn:Hq;
    [destruct (resolve env dir); discriminate |].
  rewrite <- Hq in Hn. cbn [node_at] in Hn.
  eapply entries_elem. rewrite Hq in Hn |- *. exact Hn.
Qed.

(** ** The callback of the archive route *)

Lemma download_callback_status env zipPath w :
  match fst (download_callback env zipPath w) with
  | Ok (RespError status _) => status = 500
  | Ok (RespConvert _ _ _) => False
  | _ => True
  end.
Proof.
  unfold download_callback, bind at 1, res_download.
  destruct (find env zipPath (files w)); cbn [fst snd];
    try destruct (delivery env zipPath) as [| err [|]];
    unfold bind, console_error, emit, res_json, ret, throw, promise_catch,
      try_catch; cbn [fst];
    try exact I;
    match goal with |- context [unlink ?e ?p ?w0] =>
      destruct (unlink e p w0) as [[[] | ?] ?] end; cbn; try reflexivity;
    exact I.
Qed.

Lemma download_zip_finds env session w name :
  name ∈ entries (resolve env (path_join env [__dirname env; "public"; session]))
           (files w) ->
  no_files_answer (fst (download_zip env session w)) = false.
Proof.
  intros Hname. unfold download_zip, bind at 1, try_catch, bind at 1, readdir.
  destruct (refuse env _); [reflexivity |].
  destruct (find env _ (files w)); try reflexivity.
  destruct (entries _ (files w)) as [| n names] eqn:Hent; [inversion Hname |].
  change ((length (n :: names) =? 0)%nat) with false. cbv iota.
  unfold build_archive, bind at 1, createWriteStream.
  destruct (refuse env (SysOpen _)); [reflexivity |].
  destruct (write_file env _ 0 (files w)) as [e | fs]; [reflexivity |].
  destruct (archiver env _) as [size | e]; [| reflexivity].
  unfold bind at 1, close_stream. unfold ret at 1.
  match goal with |- context [download_callback ?e ?z ?w0] =>
    pose proof (download_callback_status e z w0) as Hcb;
    destruct (download_callback e z w0) as [[[status msg | |] | err] w2] end;
    cbn [fst] in *; try reflexivity.
  subst status. reflexivity.
Qed.

(** X18.  When the outputs of the files of a request lie at different
    locations, none of them that of an upload, and directly in the
    session directory, a response that offers the archive link has left
    at least one file there for [readdir] to list: the archive route
    does not answer [404 No files available to zip]. *)
Theorem zip_link_finds_files env req w urls zip sizes w' l :
  let sessionId := sessionId_of env req in
  req_files req = Some l ->
  NoDup (map (output_at env sessionId) l) ->
  apart env sessionId l ->
  Forall (fun file =>
            inside (resolve env (outputDir_of env sessionId))
              (output_at env sessionId file)) l ->
  convert env req w = (Ok (RespConvert urls zip sizes), w') ->
  zip <> "" ->
  (exists name,
     name ∈ entries (resolve env (outputDir_of env sessionId)) (files w'))
  /\ no_files_answer (fst (download_zip env sessionId w')) = false.
Proof.
  intros sid Hl Hnd Hapart Hinside Hrun Hzip.
  assert (exists f, f ∈ sizes /\ status_of f = Converted) as (f & Hin & Hst).
  { destruct (converted_or_not sizes) as [Hex | Hno]; [exact Hex |].
    exfalso. apply Hzip.
    apply convert_inv in Hrun as (_ & _ & _ & _ & _ & _ & _ & -> & ->).
    apply zipDownloadUrl_of_none, forallb_not_converted, Hno. }
  apply list_elem_of_lookup_1 in Hin as [i Hi].
  destruct (converted_output_kept env req w urls zip sizes w' l i f
              Hl Hnd Hapart Hrun Hi Hst) as (file & Hfile & _ & _ & Hkept).
  rewrite Forall_forall in Hinside. specialize (Hinside file Hfile).
  destruct (listed env _ _ _ _ Hinside Hkept) as [name Hname].
  split; [exists name; exact Hname |].
  eapply download_zip_finds. exact Hname.
Qed.

Lemma zip_link_finds_files_witness :
  let env := Demo.env (Demo.table [(70, 400000)]) Demo.no_refusal in
  let req := Demo.request (Demo.jpeg 1000000) in
  let w' := snd (convert env req (Demo.world 1000000)) in
  (exists name,
     name ∈ entries (resolve env (outputDir_of env (sessionId_of env req)))
              (files w'))
  /\ no_files_answer (fst (download_zip env (sessionId_of env req) w')) = false.
Proof.
  intros env req w'.
  apply (zip_link_finds_files env req (Demo.world 1000000)
           ["/download/s1/photo.webp"] "/download-zip/s1"
           [mkFileSize "photo.jpg" 1000000 400000 None None None] w'
           [Demo.jpeg 1000000]).
  - reflexivity.
  - vm_compute. repeat constructor. intros Hin. inversion Hin.
  - intros a b Ha Hb. apply list_elem_of_singleton in Ha, Hb. subst a b.
    vm_compute. discriminate.
  - repeat constructor. exists "photo.webp". vm_compute. reflexivity.
  - vm_compute; reflexivity.
  - discriminate.
Defined.

(** The conditions are needed.  [photo.jpg] and [photo.png] share the
    output [photo.webp]: the first is Converted, the second is Skipped
    and line 191 unlinks the output of the first.  The response still
    lists the download URL and the archive link, the file is gone and
    the archive route answers 404. *)
Lemma same_name_loses_the_output :
  let env := Cases.same_name_env in
  let (response, w') := convert env Cases.same_name Cases.two_uploads in
  response
  = Ok (RespConvert ["/download/s1/photo.webp"; ""] "/download-zip/s1"
          [mkFileSize "photo.jpg" 1000000 400000 None None None;
           mkFileSize "photo.png" 2000 2000 (Some true) None None])
  /\ lookup_file env "/srv/app/public/s1/photo.webp" (files w') = None
  /\ fst (download_zip env "s1" w')
     = Ok (RespError 404 "No files available to zip").
Proof. vm_compute. repeat split; reflexivity. Qed.

(** ** A session path that is not a directory *)

Lemma sharp_without_dir env i q o w :
  is_dir (parent (resolve env o)) (files w) = false ->
  exists e w', sharp_webp_toFile env i q o w = (Throw e, w')
    /\ files w' = files w /\ same_arrays w w'.
Proof.
  intros Hd. unfold sharp_webp_toFile.
  destruct (decide _); [eexists _, _; split; [reflexivity |]; repeat split |].
  destruct (find env i (files w)) as [original | |];
    try (eexists _, _; split; [reflexivity |]; repeat split).
  destruct (codec env i q) as [size |];
    [| eexists _, _; split; [reflexivity |]; repeat split].
  destruct (write_file env o size (files w)) as [e | fs] eqn:Hw;
    [eexists _, _; split; [reflexivity |]; repeat split |].
  apply write_file_inv in Hw as (_ & _ & _ & _ & _ & Hpar).
  unfold is_dir in Hd. rewrite Hpar in Hd. discriminate.
Qed.

Lemma optimizeWebP_without_dir env i o orig isWebP w :
  is_dir (parent (resolve env o)) (files w) = false ->
  exists e w', optimizeWebP env i o orig isWebP w = (Throw e, w')
    /\ files w' = files w.
Proof.
  intros Hd. rewrite optimizeWebP_unfold, search_step.
  unfold attempt, bind at 1.
  destruct (sharp_without_dir env i (first_quality isWebP) o w Hd)
    as (e & w' & Hs & Hf & _).
  rewrite Hs. eauto.
Qed.

Lemma convert_file_without_dir env sid file w :
  inside (resolve env (outputDir_of env sid)) (output_at env sid file) ->
  is_dir (resolve env (outputDir_of env sid)) (files w) = false ->
  exists w' msg,
    convert_file env sid file w = (Ok tt, w')
    /\ pushes w w' [(failed_entry file msg, "")]
    /\ is_dir (resolve env (outputDir_of env sid)) (files w') = false.
Proof.
  intros Hin Hd.
  apply inside_parent in Hin as [Hpar _]. unfold output_at in Hpar.
  assert (exists e w1, convert_try env sid file w = (Throw e, w1)
            /\ same_arrays w w1) as (e & w1 & Htry & Hs).
  { unfold convert_try, bind at 1. fold (outputPath_of env sid file).
    destruct (stat env (File.path file) w) as [r w0] eqn:Hst.
    pose proof (stat_inv _ _ _ _ _ Hst) as ->.
    destruct r as [orig | e].
    2: { exists e, w. split; [reflexivity | apply same_arrays_refl]. }
    unfold bind at 1.
    pose proof (keeps_optimizeWebP env (File.path file)
                  (outputPath_of env sid file) orig
                  (bool_decide (File.mimetype file = "image/webp")) w) as Hk.
    destruct (optimizeWebP_without_dir env (File.path file)
                (outputPath_of env sid file) orig
                (bool_decide (File.mimetype file = "image/webp")) w)
      as (e & w1 & Hopt & Hf); [rewrite Hpar; exact Hd |].
    rewrite Hopt in Hk |- *. exists e, w1. auto. }
  pose proof (dirs_convert_file env sid file
                (resolve env (outputDir_of env sid)) w) as Hdirs.
  unfold on_disk in Hdirs. revert Hdirs.
  unfold convert_file, try_catch. rewrite Htry.
  destruct (convert_catch_pushes env file e w1) as (w' & Hc & Hp).
  rewrite Hc. cbn [snd]. intros Hdirs.
  exists w', (message e). split; [reflexivity |].
  split; [eapply pushes_same_l; eassumption |]. rewrite Hdirs. exact Hd.
Qed.

Lemma for_of_without_dir env sid l :
  Forall (fun file =>
            inside (resolve env (outputDir_of env sid)) (output_at env sid file)) l ->
  forall w,
  is_dir (resolve env (outputDir_of env sid)) (files w) = false ->
  exists w' pairs,
    for_of l (convert_file env sid) w = (Ok tt, w')
    /\ pushes w w' pairs
    /\ Forall2 (fun file pair => exists msg, pair = (failed_entry file msg, ""))
         l pairs.
Proof.
  induction 1 as [| file l Hin _ IH]; intros w Hd; simpl.
  - exists w, []. split; [reflexivity |]. split; [| constructor].
    apply pushes_nil, same_arrays_refl.
  - destruct (convert_file_without_dir env sid file w Hin Hd)
      as (w1 & msg & Hrun & Hp & Hd1).
    destruct (IH w1 Hd1) as (w' & pairs & Hrun' & Hp' & Hall).
    exists w', ((failed_entry file msg, "") :: pairs).
    unfold bind. rewrite Hrun. split; [exact Hrun' |].
    split; [exact (pushes_app _ _ _ [_] pairs Hp Hp') |].
    constructor; eauto.
Qed.

(** X14.  [ensureDir] takes an EEXIST of [mkdir] for success without
    looking for the directory.  When it returns and there is none (the
    path is taken by a regular file), the route still answers with the
    arrays: one outcome per file, in order, every one of them Failed,
    every download URL empty and no archive link.  The outputs are taken
    to lie directly in the session directory. *)
Theorem eexist_without_directory_fails_every_file env req w l w0 :
  let sessionId := sessionId_of env req in
  let dir := outputDir_of env sessionId in
  req_files req = Some l -> l <> [] ->
  ensureDir env dir w = (Ok tt, w0) ->
  is_dir (resolve env dir) (files w0) = false ->
  Forall (fun file => inside (resolve env dir) (output_at env sessionId file)) l ->
  (exists e, mkdir_recursive env dir w = (Throw e, w) /\ code e = Some "EEXIST")
  /\ exists sizes w',
       convert env req w
       = (Ok (RespConvert (replicate (length l) "") "" sizes), w')
       /\ map originalName sizes = map File.originalname l
       /\ Forall (fun f => status_of f = Failed) sizes.
Proof.
  intros sid dir Hl Hne Hdir Hd Hinside. split.
  { revert Hdir. unfold ensureDir, try_catch.
    destruct (mkdir_recursive env dir w) as [[[] | err] w1] eqn:Hmk.
    - intros [= <-]. apply mkdir_ok_inv in Hmk as [-> _].
      exfalso. revert Hd. unfold is_dir. cbn [files with_files].
      rewrite node_at_make_dirs. case_decide as Hpre; [discriminate |].
      exfalso. apply Hpre. reflexivity.
    - pose proof (mkdir_throw_inv _ _ _ _ _ Hmk) as ->.
      destruct (decide (code err = Some "EEXIST")); [| discriminate].
      intros _. eauto. }
  destruct (for_of_without_dir env sid l Hinside (fresh_arrays w0) Hd)
    as (w' & pairs & Hfor & [Hf Hu] & Hall).
  simpl in Hf, Hu.
  assert (pairs.*2 = replicate (length l) ""
          /\ map originalName pairs.*1 = map File.originalname l
          /\ Forall (fun f => status_of f = Failed) pairs.*1) as (H2 & H1 & H3).
  { clear - Hall.
    induction Hall as [| file pair l pairs (msg & ->) _ (IH2 & IH1 & IH3)];
      [repeat split; constructor |].
    split; [| split].
    + simpl. f_equal. exact IH2.
    + simpl. f_equal. exact IH1.
    + constructor; [reflexivity | exact IH3]. }
  exists pairs.*1, w'. split; [| split; assumption].
  unfold convert, try_catch. rewrite Hl.
  destruct l as [| file l]; [contradiction |].
  change ((length (file :: l) =? 0)%nat) with false. cbv iota.
  unfold bind at 1. fold sid dir. rewrite Hdir.
  unfold bind at 1, new_arrays at 1. unfold bind at 1. rewrite Hfor.
  unfold respond. rewrite Hf, Hu, H2.
  rewrite zipDownloadUrl_of_none; [reflexivity |].
  intros (f & Hin & Hst). rewrite Forall_forall in H3.
  rewrite (H3 f Hin) in Hst. discriminate.
Qed.

Lemma eexist_without_directory_fails_every_file_witness :
  let env := Cases.env Demo.no_refusal in
  (exists e,
     mkdir_recursive env "/srv/app/public/s1" Cases.session_is_file
     = (Throw e, Cases.session_is_file)
     /\ code e = Some "EEXIST")
  /\ exists sizes w',
       convert env Cases.batch Cases.session_is_file
       = (Ok (RespConvert (replicate (length [Cases.photo; Cases.icon]) "") ""
                sizes), w')
       /\ map originalName sizes = map File.originalname [Cases.photo; Cases.icon]
       /\ Forall (fun f => status_of f = Failed) sizes.
Proof.
  intros env.
  apply (eexist_without_directory_fails_every_file env Cases.batch
           Cases.session_is_file [Cases.photo; Cases.icon]
           Cases.session_is_file).
  - reflexivity.
  - discriminate.
  - vm_compute; reflexivity.
  - vm_compute; reflexivity.
  - repeat constructor; [exists "photo.webp" | exists "icon.webp"];
      vm_compute; reflexivity.
Defined.

(** ** [GET /download/:session/:filename] *)

(** X15.  The single-file route never changes the disk.  It answers 404
    when [access] fails, whatever the reason; 500 when the path is a
    directory or the delivery fails before the headers are out; when the
    delivery succeeds it has sent the file at the joined path, the name
    that was asked for passed on as the download name.  When the
    delivery fails after the headers were sent, the callback throws at
    line 52: the headers of the answer cannot be set any more. *)
Theorem download_file_answers env session filename w :
  let filePath := path_join env [__dirname env; "public"; session; filename] in
  let (r, w') := download_file env session filename w in
  files w' = files w
  /\ r = match refuse env (SysAccess filePath), find env filePath (files w) with
         | Some _, _ | None, Absent _ => Ok (RespError 404 "File not found")
         | None, IsDir => Ok (RespError 500 "Failed to download file")
         | None, IsFile _ =>
             match delivery env filePath with
             | Sent => Ok (RespDownload filePath filename)
             | NotSent _ false => Ok (RespError 500 "Failed to download file")
             | NotSent _ true => Throw headers_sent
             end
         end.
Proof.
  intros filePath. unfold download_file, try_catch, bind at 1. fold filePath.
  unfold bind at 1, access.
  destruct (refuse env (SysAccess filePath)) as [e |]; [split; reflexivity |].
  unfold download_file_callback, res_download, bind, ret.
  destruct (find env filePath (files w)) as [size | |] eqn:Hf; cbn;
    rewrite ?Hf; cbn; try (split; reflexivity).
  destruct (delivery env filePath) as [| err [|]]; cbn; split; reflexivity.
Qed.

(** ** More on [GET /download-zip/:session] *)

(** X19.  For a session directory that is there, can be read and holds
    nothing, the archive route answers 404, [No files available to zip],
    and builds nothing. *)
Theorem empty_session_not_found env session w :
  let sessionDir := path_join env [__dirname env; "public"; session] in
  refuse env (SysReaddir sessionDir) = None ->
  find env sessionDir (files w) = IsDir ->
  entries (resolve env sessionDir) (files w) = [] ->
  download_zip env session w
  = (Ok (RespError 404 "No files available to zip"),
     record (EvWarn ("No files found in " +:+ sessionDir)) w).
Proof.
  intros sessionDir Href Hdir Hent.
  unfold download_zip, bind at 1, try_catch, bind at 1, readdir.
  fold sessionDir. rewrite Href, Hdir, Hent. reflexivity.
Qed.

Lemma empty_session_not_found_witness :
  download_zip (Demo.zip_env (fun _ => Ok 4096) (fun _ => Sent)) "s1"
    Demo.empty_session
  = (Ok (RespError 404 "No files available to zip"),
     record (EvWarn "No files found in /srv/app/public/s1") Demo.empty_session).
Proof.
  apply (empty_session_not_found
           (Demo.zip_env (fun _ => Ok 4096) (fun _ => Sent)) "s1"
           Demo.empty_session);
    vm_compute; reflexivity.
Defined.

Section ZipDisk.

Variables (env : Env) (zipPath : string) (p : Location).

Hypothesis other : p <> resolve env zipPath.

Lemma disk_createWriteStream :
  preserves (on_disk (node_at p)) (createWriteStream env zipPath).
Proof.
  intros w. unfold createWriteStream, on_disk. destruct (refuse env _); [reflexivity |].
  destruct (write_file env zipPath 0 (files w)) as [e | fs] eqn:Hw; [reflexivity |].
  cbn [snd files with_files]. eapply node_write_ne; [exact Hw | auto].
Qed.

Lemma disk_close_stream size :
  preserves (on_disk (node_at p)) (close_stream env zipPath size).
Proof.
  intros w. unfold close_stream, on_disk. cbn [snd files with_files].
  apply node_at_insert_ne. auto.
Qed.

Lemma disk_download_callback :
  preserves (on_disk (node_at p)) (download_callback env zipPath).
Proof.
  unfold download_callback.
  apply preserves_bind.
  { intros w. unfold res_download. destruct (find env zipPath (files w)); reflexivity. }
  intros outcome. apply preserves_bind.
  { destruct outcome as [| err [|]]; try apply preserves_ret;
      (apply preserves_bind; [apply disk_emit | intros _]);
      [apply preserves_throw | apply preserves_ret]. }
  intros response. apply preserves_bind; [| intros _; apply preserves_ret].
  apply preserves_try_catch; [| intros e; apply disk_emit].
  intros w. apply unlink_node_ne. auto.
Qed.

Lemma disk_build_archive sessionDir :
  preserves (on_disk (node_at p)) (build_archive env sessionDir zipPath).
Proof.
  unfold build_archive.
  apply preserves_bind; [apply disk_createWriteStream | intros failed].
  destruct failed as [err |]; [apply preserves_ret |].
  destruct (archiver env sessionDir) as [size | err].
  - apply preserves_bind; [apply disk_close_stream | intros _; apply preserves_ret].
  - apply preserves_bind; [apply disk_emit | intros _; apply preserves_throw].
Qed.

End ZipDisk.

(** X16.  The archive route touches the disk at the location of its
    transient file only, whether it answers or throws: every other
    location, in the session directories and in [uploads/], holds what
    it held. *)
Theorem archive_route_spares_the_files env session w p :
  p <> resolve env (path_join env [__dirname env; "public"; session +:+ ".zip"]) ->
  node_at p (files (snd (download_zip env session w))) = node_at p (files w).
Proof.
  intros Hp.
  assert (preserves (on_disk (node_at p)) (download_zip env session)) as Hk;
    [| exact (Hk w)].
  unfold download_zip. apply preserves_bind.
  - apply preserves_try_catch.
    + apply preserves_bind.
      { intros w0. unfold readdir. destruct (refuse env _); [reflexivity |].
        destruct (find env _ (files w0)); reflexivity. }
      intros names. destruct (length names =? 0)%nat.
      * apply preserves_bind; [apply disk_emit | intros _; apply preserves_ret].
      * apply disk_build_archive, Hp.
    + intros e. apply preserves_bind; [apply disk_emit | intros _; apply preserves_ret].
  - intros [response | | err]; [apply preserves_ret | | apply preserves_throw].
    apply disk_download_callback, Hp.
Qed.

Lemma archive_route_spares_the_files_witness :
  let env := Demo.zip_env (fun _ => Ok 4096) Cases.aborted in
  let p := resolve env "/srv/app/public/s1/photo.webp" in
  node_at p (files (snd (download_zip env "s1" Demo.served)))
  = node_at p (files Demo.served).
Proof.
  intros env p.
  apply (archive_route_spares_the_files env "s1" Demo.served p).
  vm_compute. discriminate.
Defined.

(** X17.  For a session directory with at least one entry, when the
    transient file can be opened, the archive is built and the operating
    system does not refuse the deletion: the route sends
    [converted_images.zip], or answers 500 when the delivery fails
    before the headers are out, and in both cases the transient file is
    unlinked, once, and is gone.  When the delivery fails after the
    headers were sent, the callback throws before it comes to the
    [unlink]: the archive stays on disk. *)
Theorem archive_is_delivered_then_deleted env session w name names w1 size :
  let sessionDir := path_join env [__dirname env; "public"; session] in
  let zipPath := path_join env [__dirname env; "public"; session +:+ ".zip"] in
  readdir env sessionDir w = (Ok (name :: names), w) ->
  createWriteStream env zipPath w = (Ok None, w1) ->
  archiver env sessionDir = Ok size ->
  refuse env (SysUnlink zipPath) = None ->
  let (r, w') := download_zip env session w in
  match delivery env zipPath with
  | Sent =>
      r = Ok (RespDownload zipPath "converted_images.zip")
      /\ lookup_file env zipPath (files w') = None
      /\ unlink_calls env (resolve env zipPath) (trace w')
         = S (unlink_calls env (resolve env zipPath) (trace w))
  | NotSent _ false =>
      r = Ok (RespError 500 "Failed to download ZIP")
      /\ lookup_file env zipPath (files w') = None
      /\ unlink_calls env (resolve env zipPath) (trace w')
         = S (unlink_calls env (resolve env zipPath) (trace w))
  | NotSent _ true =>
      r = Throw headers_sent
      /\ lookup_file env zipPath (files w') = Some size
      /\ unlink_calls env (resolve env zipPath) (trace w')
         = unlink_calls env (resolve env zipPath) (trace w)
  end.
Proof.
  intros sessionDir zipPath Hdir Hopen Harch Href.
  unfold download_zip, bind at 1, try_catch, bind at 1.
  fold sessionDir zipPath. rewrite Hdir.
  change ((length (name :: names) =? 0)%nat) with false. cbv iota.
  unfold build_archive, bind at 1. rewrite Hopen, Harch.
  unfold bind at 1, close_stream. unfold ret at 1.
  revert Hopen. unfold createWriteStream.
  destruct (refuse env (SysOpen zipPath)); [discriminate |].
  destruct (write_file env zipPath 0 (files w)) as [e | fs] eqn:Hw;
    [discriminate |].
  intros [= <-]. apply write_file_inv in Hw as (-> & Hs & Ht & Hp & _).
  set (w2 := with_files _ (with_files _ w)).
  assert (lookup_file env zipPath (files w2) = Some size) as Hzip.
  { rewrite lookup_file_node, Ht. apply String.eqb_neq in Hs. rewrite Hs.
    subst w2. cbn [files with_files orb]. unfold file_at.
    rewrite node_at_insert_eq by exact Hp. reflexivity. }
  assert (trace w2 = trace w) as Htrace by reflexivity.
  unfold download_callback, bind at 1, res_download.
  pose proof (proj2 (find_file env zipPath (files w2) size) Hzip) as Hfind.
  rewrite Hfind.
  destruct (delivery env zipPath) as [| err [|]].
  - unfold bind at 1. unfold ret at 1. unfold bind, promise_catch, try_catch.
    rewrite (unlink_ok env zipPath w2 size Href Hzip). cbn [fst snd ret].
    split; [reflexivity |]. split; [apply lookup_remove_eq |].
    cbn [trace record unlink_calls with_files].
    change (trace w2) with (trace w).
    case_decide; [reflexivity | contradiction].
  - unfold bind at 1, bind at 1, console_error, emit, res_json, throw.
    cbn [fst snd].
    split; [reflexivity |]. split; [exact Hzip |].
    cbn [trace record unlink_calls]. reflexivity.
  - unfold bind at 1, bind at 1, console_error, emit, res_json. unfold ret at 1.
    unfold bind, promise_catch, try_catch.
    assert (lookup_file env zipPath
              (files (record (EvError ("ZIP download error: " +:+ message err)) w2))
            = Some size) as Hzip' by exact Hzip.
    rewrite (unlink_ok env zipPath _ size Href Hzip'). cbn [fst snd ret].
    split; [reflexivity |]. split; [apply lookup_remove_eq |].
    cbn [trace record unlink_calls with_files].
    change (trace w2) with (trace w).
    case_decide; [reflexivity | contradiction].
Qed.

Lemma archive_is_delivered_then_deleted_witness :
  let env := Demo.zip_env (fun _ => Ok 4096) Cases.aborted in
  let zipPath := "/srv/app/public/s1.zip" in
  let (r, w') := download_zip env "s1" Demo.served in
  r = Throw headers_sent
  /\ lookup_file env zipPath (files w') = Some 4096
  /\ unlink_calls env (resolve env zipPath) (trace w')
     = unlink_calls env (resolve env zipPath) (trace Demo.served).
Proof.
  intros env zipPath.
  apply (archive_is_delivered_then_deleted env "s1" Demo.served
           "photo.webp" []
           (snd (createWriteStream env zipPath Demo.served)) 4096).
  - vm_compute; reflexivity.
  - vm_compute; reflexivity.
  - reflexivity.
  - reflexivity.
Defined.
